(** * The AGC ttbar processor (coffea, virtual arrays): embedding and properties

    Source: [agc-coffea-202x-virtual-arrays-and-executors.ipynb], the cell that
    defines [object_selection], [region_selection], [calculate_m_reco_top] and
    the processor class [create_histograms].

    Conventions of the embedding.
    - A Python float is a rational [Q]; comparisons are the exact ones, and
      rounding of products is not represented.
    - A jagged awkward array of objects is a [list (list _)]: one inner list
      per event.  An array with missing values holds [option]s.
    - Operations of awkward, numpy and coffea that can raise return [option];
      [None] is the raised exception.
    - [ak.Array] objects that receive [__setitem__] ([events] and the local
      [jets]) live in a heap and are referred to by address.
    - A histogram is the list of the [fill] calls it received. *)

From Stdlib Require Import List String Ascii ZArith QArith Qabs Bool Lia Arith.
From Stdlib Require Import DecimalString.
Import ListNotations.

Set Implicit Arguments.
Close Scope Q_scope.
Open Scope string_scope.
Open Scope list_scope.

(** ** Errors: the option monad *)

Notation "'let?' x ':=' e 'in' k" :=
  (match e with Some x => k | None => None end)
  (at level 10, x pattern, e at level 100, k at level 200,
   format "'[v' 'let?'  x  ':='  e  'in' '/' k ']'").

(** ** Numbers *)

Definition Qgtb (x y : Q) : bool := negb (Qle_bool x y).
Definition Qltb (x y : Q) : bool := negb (Qle_bool y x).

(** [np.maximum] on two scalars. *)
Definition np_maximum (x y : Q) : Q := if Qle_bool x y then y else x.

(** ** Physics objects: the fields the processor reads *)

Module Electron.
Record t := { pt : Q; eta : Q; cutBased : Z; sip3d : Q }.
End Electron.

Module Muon.
Record t := { pt : Q; eta : Q; tightId : bool; sip3d : Q;
              pfRelIso04_all : Q }.
End Muon.

Module Jet.
Record t := { pt : Q; eta : Q; phi : Q; mass : Q; btagCSVV2 : Q;
              isTightLeptonVeto : bool }.

(** [jets["pt"] = v] on one jet: the other fields are kept. *)
Definition with_pt (j : t) (v : Q) : t :=
  {| pt := v; eta := eta j; phi := phi j; mass := mass j;
     btagCSVV2 := btagCSVV2 j; isTightLeptonVeto := isTightLeptonVeto j |}.
End Jet.

(** ** The awkward-array operations the notebook uses *)

Module ak.

(** [ak.num(a)] (axis=1): the number of objects of each event. *)
Definition num {A} (a : list (list A)) : list nat :=
  map (fun ev => List.length ev) a.

(** [ak.sum(mask, axis=1)] on a jagged boolean array: the number of [True]
    of each event. *)
Definition sum_bool (a : list (list bool)) : list nat :=
  map (fun ev => List.length (filter (fun b => b) ev)) a.

(** [ak.sum(a, axis=-1)] on a jagged float array. *)
Definition sum (a : list (list Q)) : list Q :=
  map (fun ev => fold_left Qplus ev 0%Q) a.

(** [ak.ones_like(a) * w]. *)
Definition ones_like_times {A} (a : list A) (w : Q) : list Q :=
  map (fun _ => (1 * w)%Q) a.

(** An elementwise binary operation on two flat arrays; arrays of different
    lengths cannot be broadcast. *)
Fixpoint zip_with {A B C} (f : A -> B -> C) (a : list A) (b : list B)
  : option (list C) :=
  match a, b with
  | [], [] => Some []
  | x :: a', y :: b' =>
      let? r := zip_with f a' b' in Some (f x y :: r)
  | _, _ => None
  end.

(** [a[mask]] with a jagged boolean mask computed from [a] itself. *)
Definition mask_objects {A} (reqs : A -> bool) (a : list (list A))
  : list (list A) :=
  map (filter reqs) a.

(** [a[mask]] with a per-event boolean mask. *)
Fixpoint mask_events {A} (a : list A) (mask : list bool)
  : option (list A) :=
  match a, mask with
  | [], [] => Some []
  | x :: a', b :: mask' =>
      let? r := mask_events a' mask' in
      Some (if b then x :: r else r)
  | _, _ => None
  end.

(** [a[:, i]]: the [i]-th object of every event; an event with too few
    objects raises. *)
Fixpoint column {A} (a : list (list A)) (i : nat) : option (list A) :=
  match a with
  | [] => Some []
  | ev :: a' =>
      let? x := nth_error ev i in
      let? r := column a' i in
      Some (x :: r)
  end.

(** [ak.combinations(a, 3)] on one event: the triples of positions
    [i < j < k], in lexicographic order. *)
Fixpoint pairs {A} (l : list A) : list (A * A) :=
  match l with
  | [] => []
  | x :: t => map (fun y => (x, y)) t ++ pairs t
  end.

Fixpoint combinations3 {A} (l : list A) : list (A * A * A) :=
  match l with
  | [] => []
  | x :: t => map (fun yz => (x, fst yz, snd yz)) (pairs t)
              ++ combinations3 t
  end.

(** [np.argmax] on one event: the position of the first largest value. *)
Fixpoint argmax_from (best : Q) (ibest : nat) (i : nat) (l : list Q)
  : nat :=
  match l with
  | [] => ibest
  | x :: t => if Qgtb x best then argmax_from x i (S i) t
              else argmax_from best ibest (S i) t
  end.

(** [ak.argmax(a, axis=1, keepdims=True)]: one list of length one per
    event; an event without values gets the missing value. *)
Definition argmax_keepdims (a : list (list Q)) : list (list (option nat)) :=
  map (fun ev => match ev with
                 | [] => [None]
                 | x :: t => [Some (argmax_from x 0 1 t)]
                 end) a.

(** [a[idx]] with a jagged integer index that may hold missing values: a
    missing index gives a missing value, a position outside the event
    raises. *)
Definition take_one {A} (ev : list A) (i : option nat)
  : option (option A) :=
  match i with
  | None => Some None
  | Some n => let? x := nth_error ev n in Some (Some x)
  end.

Fixpoint take_event {A} (ev : list A) (idx : list (option nat))
  : option (list (option A)) :=
  match idx with
  | [] => Some []
  | i :: idx' =>
      let? x := take_one ev i in
      let? r := take_event ev idx' in
      Some (x :: r)
  end.

Fixpoint take {A} (a : list (list A)) (idx : list (list (option nat)))
  : option (list (list (option A))) :=
  match a, idx with
  | [], [] => Some []
  | ev :: a', i :: idx' =>
      let? x := take_event ev i in
      let? r := take a' idx' in
      Some (x :: r)
  | _, _ => None
  end.

(** [ak.flatten(a)] (axis=1): the boundaries between the inner lists are
    erased; a missing value inside an inner list stays. *)
Definition flatten {A} (a : list (list A)) : list A := List.concat a.

End ak.

(** ** [coffea.analysis_tools.PackedSelection]

    One unsigned integer per event; the selection registered at position [k]
    is bit [k] of it. *)

Module PackedSelection.

Record t := { _names : list string; _data : option (list Z) }.

(** [PackedSelection(dtype='uint64')] *)
Definition maxitems : nat := 64.
Definition new : t := {| _names := []; _data := None |}.

Definition has_name (s : t) (name : string) : bool :=
  existsb (String.eqb name) (_names s).

(** [self._names.index(name)] *)
Fixpoint index (name : string) (names : list string) : option nat :=
  match names with
  | [] => None
  | n :: names' =>
      if String.eqb n name then Some 0
      else let? i := index name names' in Some (S i)
  end.

(** [np.bitwise_or(data, 1 << k, where=selection, out=data)] on one
    event. *)
Definition set_bit (k : nat) (d : Z) (b : bool) : Z :=
  if b then Z.lor d (Z.shiftl 1 (Z.of_nat k)) else d.

(** [selections.add(name, selection)] *)
Definition add (s : t) (name : string) (selection : list bool)
  : option t :=
  if has_name s name then None
  else
    let k := List.length (_names s) in
    let? data :=
      match _names s with
      | [] => Some (repeat 0%Z (List.length selection))
      | _ :: _ =>
          if Nat.eqb k maxitems then None
          else
            let? d := _data s in
            if Nat.eqb (List.length d) (List.length selection)
            then Some d else None
      end in
    let? data' := ak.zip_with (set_bit k) data selection in
    Some {| _names := _names s ++ [name]; _data := Some data' |}.

(** The two masks [consider] and [require] of [selections.require]. *)
Fixpoint masks (names : list string) (cuts : list (string * bool))
  : option (Z * Z) :=
  match cuts with
  | [] => Some (0%Z, 0%Z)
  | (name, val) :: cuts' =>
      let? idx := index name names in
      let? cr := masks names cuts' in
      Some (Z.lor (fst cr) (Z.shiftl 1 (Z.of_nat idx)),
            Z.lor (snd cr) (Z.shiftl (if val then 1 else 0) (Z.of_nat idx)))
  end.

(** [selections.require] with its keyword arguments [cuts]. *)
Definition require (s : t) (cuts : list (string * bool))
  : option (list bool) :=
  if forallb (fun c => has_name s (fst c)) cuts then
    let? cr := masks (_names s) cuts in
    let? d := _data s in
    Some (map (fun x => Z.eqb (Z.land x (fst cr)) (snd cr)) d)
  else None.

(** [selections.all] with its positional arguments [names]; called without
    a name it requires every registered selection. *)
Definition all (s : t) (names : list string) : option (list bool) :=
  match names with
  | [] => require s (map (fun name => (name, true)) (_names s))
  | _ :: _ => require s (map (fun name => (name, true)) names)
  end.

End PackedSelection.

(** ** Object and region selection *)

Definition B_TAG_THRESHOLD : Q := 0.5%Q.

Definition electron_reqs (e : Electron.t) : bool :=
  Qgtb (Electron.pt e) 30%Q && Qltb (Qabs (Electron.eta e)) 2.1%Q
  && Z.eqb (Electron.cutBased e) 4%Z && Qltb (Electron.sip3d e) 4%Q.

Definition muon_reqs (m : Muon.t) : bool :=
  Qgtb (Muon.pt m) 30%Q && Qltb (Qabs (Muon.eta m)) 2.1%Q
  && Muon.tightId m && Qltb (Muon.sip3d m) 4%Q
  && Qltb (Muon.pfRelIso04_all m) 0.15%Q.

Definition jet_reqs (j : Jet.t) : bool :=
  Qgtb (Jet.pt j) 30%Q && Qltb (Qabs (Jet.eta j)) 2.4%Q
  && Jet.isTightLeptonVeto j.

Definition object_selection
  (elecs : list (list Electron.t)) (muons : list (list Muon.t))
  (jets : list (list Jet.t))
  : list (list Electron.t) * list (list Muon.t) * list (list Jet.t) :=
  let elecs := ak.mask_objects electron_reqs elecs in
  let muons := ak.mask_objects muon_reqs muons in
  let jets := ak.mask_objects jet_reqs jets in
  (elecs, muons, jets).

(** [jets.btagCSVV2 > B_TAG_THRESHOLD] *)
Definition btagged (jets : list (list Jet.t)) : list (list bool) :=
  map (map (fun j => Qgtb (Jet.btagCSVV2 j) B_TAG_THRESHOLD)) jets.

Definition region_selection
  (elecs : list (list Electron.t)) (muons : list (list Muon.t))
  (jets : list (list Jet.t)) : option PackedSelection.t :=
  let selections := PackedSelection.new in
  let? nlep := ak.zip_with Nat.add (ak.num elecs) (ak.num muons) in
  let? selections :=
    PackedSelection.add selections "exactly_1l"
      (map (fun n => Nat.eqb n 1) nlep) in
  let? selections :=
    PackedSelection.add selections "atleast_4j"
      (map (fun n => Nat.leb 4 n) (ak.num jets)) in
  let? selections :=
    PackedSelection.add selections "exactly_1b"
      (map (fun n => Nat.eqb n 1) (ak.sum_bool (btagged jets))) in
  let? selections :=
    PackedSelection.add selections "atleast_2b"
      (map (fun n => Nat.leb 2 n) (ak.sum_bool (btagged jets))) in
  let? m4j1b :=
    PackedSelection.all selections
      ["exactly_1l"; "atleast_4j"; "exactly_1b"] in
  let? selections := PackedSelection.add selections "4j1b" m4j1b in
  let? m4j2b :=
    PackedSelection.all selections
      ["exactly_1l"; "atleast_4j"; "atleast_2b"] in
  let? selections := PackedSelection.add selections "4j2b" m4j2b in
  Some selections.

(** ** Four-momenta

    The jets carry the vector behaviour of coffea: the sum of two of them is
    a Lorentz vector with a transverse momentum and an invariant mass.  The
    arithmetic behind it (square roots, hyperbolic functions) is kept behind
    an interface. *)

Class Vector4 := {
  LorentzVector : Type;
  p4_of_jet : Jet.t -> LorentzVector;
  p4_add : LorentzVector -> LorentzVector -> LorentzVector;
  p4_pt : LorentzVector -> Q;
  p4_mass : LorentzVector -> Q }.

Module Trijet.
Section WithVector.
Context {V : Vector4}.

Record t := { j1 : Jet.t; j2 : Jet.t; j3 : Jet.t;
              p4 : LorentzVector; max_btag : Q }.

(** One candidate of [ak.combinations(jets, 3, fields=["j1","j2","j3"])]
    with the two fields the code attaches to it:
    [p4 = j1 + j2 + j3] and
    [max_btag = np.maximum(j1.btag, np.maximum(j2.btag, j3.btag))]. *)
Definition make (c : Jet.t * Jet.t * Jet.t) : t :=
  let '(a, b, c) := c in
  {| j1 := a; j2 := b; j3 := c;
     p4 := p4_add (p4_add (p4_of_jet a) (p4_of_jet b)) (p4_of_jet c);
     max_btag := np_maximum (Jet.btagCSVV2 a)
                   (np_maximum (Jet.btagCSVV2 b) (Jet.btagCSVV2 c)) |}.
End WithVector.
End Trijet.

Section Observable.
Context {V : Vector4}.

(** [trijet = trijet[trijet.max_btag > B_TAG_THRESHOLD]] on one candidate *)
Definition has_btag (c : Trijet.t) : bool :=
  Qgtb (Trijet.max_btag c) B_TAG_THRESHOLD.

Definition calculate_m_reco_top (jets : list (list Jet.t))
  : option (list (option Q)) :=
  let trijet := map (fun ev => map Trijet.make (ak.combinations3 ev)) jets in
  let trijet := ak.mask_objects has_btag trijet in
  let idx :=
    ak.argmax_keepdims (map (map (fun c => p4_pt (Trijet.p4 c))) trijet) in
  let? best := ak.take (map (map Trijet.p4) trijet) idx in
  let trijet_mass := map (map (option_map p4_mass)) best in
  let observable := ak.flatten trijet_mass in
  Some observable.

End Observable.

(** ** Event batches, histograms and the interpreter state *)

(** A column attached to the events with [events[name] = value]: one number
    per event, or one number per object of each event. *)
Inductive Column :=
| PerEvent (c : list Q)
| PerObject (c : list (list Q)).

Definition column_length (c : Column) : nat :=
  match c with
  | PerEvent c => List.length c
  | PerObject c => List.length c
  end.

Module Metadata.
Record t := { process : string; variation : string; xsec : Q;
              nevts : Z; dataset : string }.
End Metadata.

Record Event := { Electron : list Electron.t; Muon : list Muon.t;
                  Jet : list Jet.t }.

(** The layout of the [events] array: the events, the columns attached while
    processing (the latest first) and the metadata of the chunk. *)
Record NanoEvents := { rows : list Event;
                       attached : list (string * Column);
                       metadata : Metadata.t }.

(** One call of [Hist.fill]. *)
Module Fill.
Record t := { observable : list (option Q); process : string;
              variation : string; weight : list Q }.
End Fill.

(** One call of [cset["event_systematics"].evaluate]. *)
Module Query.
Record t := { family : string; direction : string; input : list Q }.
End Query.

(** An [ak.Array] object: its layout can be replaced by [__setitem__]. *)
Inductive Obj :=
| ObjEvents (e : NanoEvents)
| ObjJets (j : list (list Jet.t)).

Record State := { heap : list Obj;
                  hist_dict : list (string * list Fill.t);
                  cset_calls : list Query.t }.

(** ** State and errors: the monad of the processor *)

Definition M (A : Type) : Type := State -> option (A * State).

Definition ret {A} (x : A) : M A := fun s => Some (x, s).

Definition bind {A B} (m : M A) (k : A -> M B) : M B :=
  fun s => match m s with
           | Some (x, s') => k x s'
           | None => None
           end.

Definition raise {A} : M A := fun _ => None.

Definition lift {A} (o : option A) : M A :=
  fun s => match o with Some x => Some (x, s) | None => None end.

Notation "x <- m ;; k" := (bind m (fun x => k))
  (at level 61, m at next level, right associativity).
Notation "m ;;; k" := (bind m (fun _ => k))
  (at level 61, right associativity).

(** [for x in l: body(x)] *)
Fixpoint for_each {A} (l : list A) (body : A -> M unit) : M unit :=
  match l with
  | [] => ret tt
  | x :: l' => body x ;;; for_each l' body
  end.

(** *** Heap operations *)

Fixpoint update_nth {A} (n : nat) (x : A) (l : list A) : option (list A) :=
  match l, n with
  | [], _ => None
  | _ :: l', O => Some (x :: l')
  | y :: l', S n' => let? r := update_nth n' x l' in Some (y :: r)
  end.

Definition alloc (o : Obj) : M nat :=
  fun s => Some (List.length (heap s),
                 {| heap := heap s ++ [o]; hist_dict := hist_dict s;
                    cset_calls := cset_calls s |}).

Definition load (a : nat) : M Obj :=
  fun s => lift (nth_error (heap s) a) s.

Definition store (a : nat) (o : Obj) : M unit :=
  fun s => let? h := update_nth a o (heap s) in
           Some (tt, {| heap := h; hist_dict := hist_dict s;
                        cset_calls := cset_calls s |}).

Definition load_events (events : nat) : M NanoEvents :=
  o <- load events ;;
  match o with ObjEvents e => ret e | _ => raise end.

Definition load_jets (jets : nat) : M (list (list Jet.t)) :=
  o <- load jets ;;
  match o with ObjJets j => ret j | _ => raise end.

(** [events[name] = value]: the layout of the object [events] is replaced by
    one with the new column; a column of another length cannot be
    broadcast. *)
Definition events_setitem (events : nat) (name : string) (value : Column)
  : M unit :=
  e <- load_events events ;;
  if Nat.eqb (column_length value) (List.length (rows e)) then
    store events (ObjEvents {| rows := rows e;
                               attached := (name, value) :: attached e;
                               metadata := metadata e |})
  else raise.

(** [events[name]] for an attached column. *)
Fixpoint lookup {A} (name : string) (l : list (string * A)) : option A :=
  match l with
  | [] => None
  | (n, x) :: l' => if String.eqb n name then Some x else lookup name l'
  end.

Definition events_getitem (events : nat) (name : string) : M Column :=
  e <- load_events events ;;
  lift (lookup name (attached e)).

(** [events.Jet]: a new array object on the layout of the field. *)
Definition events_Jet (events : nat) : M nat :=
  e <- load_events events ;;
  alloc (ObjJets (map Jet (rows e))).

(** [events.Electron], [events.Muon]: these arrays are only read. *)
Definition events_Electron (events : nat) : M (list (list Electron.t)) :=
  e <- load_events events ;; ret (map Electron (rows e)).

Definition events_Muon (events : nat) : M (list (list Muon.t)) :=
  e <- load_events events ;; ret (map Muon (rows e)).

(** [jets.pt * column], broadcast event by event. *)
Fixpoint zip_events {A B C} (f : A -> B -> option C)
  (a : list A) (b : list B) : option (list C) :=
  match a, b with
  | [], [] => Some []
  | x :: a', y :: b' =>
      let? z := f x y in
      let? r := zip_events f a' b' in
      Some (z :: r)
  | _, _ => None
  end.

Definition mul_column (pt : list (list Q)) (c : Column)
  : option (list (list Q)) :=
  match c with
  | PerEvent c =>
      ak.zip_with (fun ev x => map (fun p => (p * x)%Q) ev) pt c
  | PerObject c => zip_events (ak.zip_with Qmult) pt c
  end.

(** [jets["pt"] = value]: the layout of the object [jets] is replaced. *)
Definition jets_setitem_pt (jets : nat) (value : list (list Q)) : M unit :=
  j <- load_jets jets ;;
  j' <- lift (zip_events (ak.zip_with Jet.with_pt) j value) ;;
  store jets (ObjJets j').

(** *** Histograms and the correction set *)

Fixpoint update_key {A} (key : string) (f : A -> A) (l : list (string * A))
  : option (list (string * A)) :=
  match l with
  | [] => None
  | (k, x) :: l' =>
      if String.eqb k key then Some ((k, f x) :: l')
      else let? r := update_key key f l' in Some ((k, x) :: r)
  end.

(** [hist_dict[region].fill(observable, process=.., variation=..,
    weight=..)]; the histogram refuses a weight array whose length differs
    from that of the observable. *)
Definition hist_fill (region : string) (f : Fill.t) : M unit :=
  fun s =>
    if Nat.eqb (List.length (Fill.observable f)) (List.length (Fill.weight f))
    then
      let? d := update_key region (fun h => h ++ [f]) (hist_dict s) in
      Some (tt, {| heap := heap s; hist_dict := d;
                   cset_calls := cset_calls s |})
    else None.

Definition new_hist_dict : M unit :=
  fun s => Some (tt, {| heap := heap s;
                        hist_dict := [("4j1b", []); ("4j2b", [])];
                        cset_calls := cset_calls s |}).

Definition get_hist_dict : M (list (string * list Fill.t)) :=
  fun s => Some (hist_dict s, s).

(** ** String helpers of the processor *)

Fixpoint contains (sep : Ascii.ascii) (s : string) : bool :=
  match s with
  | EmptyString => false
  | String c s' => Ascii.eqb c sep || contains sep s'
  end.

(** [s.rsplit(sep, 1)[-1]]: what follows the last [sep], or [s] itself when
    it has none. *)
Fixpoint rsplit_last (sep : Ascii.ascii) (s : string) : string :=
  match s with
  | EmptyString => EmptyString
  | String c s' =>
      if contains sep s' then rsplit_last sep s'
      else if Ascii.eqb c sep then s' else s
  end.

(** [int(s)] on a string of decimal digits. *)
Definition int (s : string) : option nat :=
  option_map Nat.of_uint (NilZero.uint_of_string s).

(** [f"{i}"] for a natural number. *)
Definition str (i : nat) : string := NilZero.string_of_uint (Nat.to_uint i).

(** [x in l] on a list of strings. *)
Definition str_in (x : string) (l : list string) : bool :=
  existsb (String.eqb x) l.

(** ** The processor [create_histograms] *)

Definition lumi : Z := 3378.

(** Normalisation for simulated samples; a sample without generated events
    divides by zero. *)
Definition xsec_weight (process : string) (x_sec : Q) (nevts_total : Z)
  : option Q :=
  if negb (String.eqb process "data") then
    if Z.eqb nevts_total 0 then None
    else Some (x_sec * inject_Z lumi / inject_Z nevts_total)%Q
  else Some 1%Q.

Definition jet_kinematic_systs : list string := ["pt_scale_up"; "pt_res_up"].

Definition event_systs (process : string) : list string :=
  let event_systs := map (fun i => "btag_var_" ++ str i)%string (seq 0 4) in
  if String.eqb process "wjets" then event_systs ++ ["scale_var"]
  else event_systs.

Definition syst_variations (process variation : string) : list string :=
  let syst_variations := ["nominal"] in
  if String.eqb variation "nominal" then
    (syst_variations ++ jet_kinematic_systs) ++ event_systs process
  else syst_variations.

Section Processor.
Context {V : Vector4}.

(** [utils.systematics.rand_gauss]: the resolution multipliers drawn for the
    jets of the chunk. *)
Variable rand_gauss : list (list Q) -> list (list Q).

(** [cset["event_systematics"].evaluate(family, direction, x)] on one
    value; the correction set applies it to every entry of its input. *)
Variable evaluate : string -> string -> Q -> Q.

Definition cset_evaluate (family direction : string) (input : list Q)
  : M (list Q) :=
  fun s => Some (map (evaluate family direction) input,
                 {| heap := heap s; hist_dict := hist_dict s;
                    cset_calls := cset_calls s ++
                      [{| Query.family := family;
                          Query.direction := direction;
                          Query.input := input |}] |}).

Definition jets_pt (jets : list (list Jet.t)) : list (list Q) :=
  map (map Jet.pt) jets.

(** The body of [for region in hist_dict]. *)
Definition fill_region (process variation : string) (xsec_weight : Q)
  (syst_var : string) (selections : PackedSelection.t)
  (jets : list (list Jet.t)) (region : string) : M unit :=
  selection <- lift (PackedSelection.all selections [region]) ;;
  region_jets <- lift (ak.mask_events jets selection) ;;
  let region_weights :=
    ak.ones_like_times (ak.num region_jets) xsec_weight in
  observable <-
    (if String.eqb region "4j1b" then
       ret (map Some (ak.sum (jets_pt region_jets)))
     else if String.eqb region "4j2b" then
       lift (calculate_m_reco_top region_jets)
     else raise) ;;
  let syst_var_name := syst_var in
  if str_in syst_var (event_systs process) then
    for_each ["up"; "down"] (fun direction =>
      wgt_variation <-
        (if String.eqb syst_var "scale_var" then
           x <- lift (ak.column (jets_pt region_jets) 0) ;;
           cset_evaluate "scale_var" direction x
         else if String.prefix "btag_var" syst_var then
           i_jet <- lift (int (rsplit_last "_"%char syst_var)) ;;
           x <- lift (ak.column (jets_pt region_jets) i_jet) ;;
           cset_evaluate "btag_var" direction x
         else raise) ;;
      let syst_var_name := (syst_var ++ "_" ++ direction)%string in
      weight <- lift (ak.zip_with Qmult region_weights wgt_variation) ;;
      hist_fill region
        {| Fill.observable := observable; Fill.process := process;
           Fill.variation := syst_var_name; Fill.weight := weight |})
  else
    let syst_var_name :=
      if negb (String.eqb variation "nominal") then variation
      else syst_var_name in
    hist_fill region
      {| Fill.observable := observable; Fill.process := process;
         Fill.variation := syst_var_name; Fill.weight := region_weights |}.

(** The first half of the body of [for syst_var in syst_variations]: the
    objects of the pass and its region masks. *)
Definition select (events : nat) (syst_var : string)
  : M (list (list Electron.t) * list (list Muon.t) * list (list Jet.t)
       * PackedSelection.t) :=
  elecs <- events_Electron events ;;
  muons <- events_Muon events ;;
  jets <- events_Jet events ;;
  (if str_in syst_var jet_kinematic_systs then
     j <- load_jets jets ;;
     shift <- events_getitem events syst_var ;;
     pt <- lift (mul_column (jets_pt j) shift) ;;
     jets_setitem_pt jets pt
   else ret tt) ;;;
  j <- load_jets jets ;;
  let '(elecs, muons, jets) := object_selection elecs muons j in
  selections <- lift (region_selection elecs muons jets) ;;
  ret (elecs, muons, jets, selections).

(** The body of [for syst_var in syst_variations]. *)
Definition variation_pass (events : nat) (process variation : string)
  (xsec_weight : Q) (syst_var : string) : M unit :=
  sel <- select events syst_var ;;
  let '(elecs, muons, jets, selections) := sel in
  regions <- get_hist_dict ;;
  for_each (map fst regions)
    (fill_region process variation xsec_weight syst_var selections jets).

Definition process (events : nat)
  : M (string * list (string * list Fill.t)) :=
  new_hist_dict ;;;
  e <- load_events events ;;
  let process := Metadata.process (metadata e) in
  let variation := Metadata.variation (metadata e) in
  let x_sec := Metadata.xsec (metadata e) in
  let nevts_total := Metadata.nevts (metadata e) in
  xsec_weight <- lift (xsec_weight process x_sec nevts_total) ;;
  events_setitem events "pt_scale_up"
    (PerEvent (repeat 1.03%Q (List.length (rows e)))) ;;;
  events_setitem events "pt_res_up"
    (PerObject (rand_gauss (jets_pt (map Jet (rows e))))) ;;;
  for_each (syst_variations process variation)
    (variation_pass events process variation xsec_weight) ;;;
  hist_dict <- get_hist_dict ;;
  ret (Metadata.dataset (metadata e), hist_dict).

(** One chunk: the processor on a heap that holds only the batch. *)
Definition run (e : NanoEvents)
  : option (string * list (string * list Fill.t) * State) :=
  process 0 {| heap := [ObjEvents e]; hist_dict := []; cset_calls := [] |}.

End Processor.

(** ** Vocabulary of the properties *)

(** The atomic predicates on the selected objects of one event. *)
Definition n_btagged (ev : Event) : nat :=
  List.length
    (filter (fun j => Qgtb (Jet.btagCSVV2 j) B_TAG_THRESHOLD) (Jet ev)).

Definition exactly_1l (ev : Event) : bool :=
  Nat.eqb (List.length (Electron ev) + List.length (Muon ev)) 1.
Definition atleast_4j (ev : Event) : bool := Nat.leb 4 (List.length (Jet ev)).
Definition exactly_1b (ev : Event) : bool := Nat.eqb (n_btagged ev) 1.
Definition atleast_2b (ev : Event) : bool := Nat.leb 2 (n_btagged ev).

Definition in_4j1b (ev : Event) : bool :=
  exactly_1l ev && atleast_4j ev && exactly_1b ev.
Definition in_4j2b (ev : Event) : bool :=
  exactly_1l ev && atleast_4j ev && atleast_2b ev.

(** The mask a name stands for. *)
Definition mask_of (name : string) : option (Event -> bool) :=
  lookup name
    [("exactly_1l", exactly_1l); ("atleast_4j", atleast_4j);
     ("exactly_1b", exactly_1b); ("atleast_2b", atleast_2b);
     ("4j1b", in_4j1b); ("4j2b", in_4j2b)].

(** The six bits of one event after the six registrations. *)
Definition packed (ev : Event) : Z :=
  let d0 := PackedSelection.set_bit 0 0%Z (exactly_1l ev) in
  let d1 := PackedSelection.set_bit 1 d0 (atleast_4j ev) in
  let d2 := PackedSelection.set_bit 2 d1 (exactly_1b ev) in
  let d3 := PackedSelection.set_bit 3 d2 (atleast_2b ev) in
  let d4 := PackedSelection.set_bit 4 d3 (in_4j1b ev) in
  PackedSelection.set_bit 5 d4 (in_4j2b ev).

Definition region_names : list string :=
  ["exactly_1l"; "atleast_4j"; "exactly_1b"; "atleast_2b"; "4j1b"; "4j2b"].

Section TrijetVocabulary.
Context {V : Vector4}.

Definition trijet_pt (c : Trijet.t) : Q := p4_pt (Trijet.p4 c).
Definition trijet_mass (c : Trijet.t) : Q := p4_mass (Trijet.p4 c).

(** The candidates of one event that survive the b-tag requirement. *)
Definition candidates (ev : list Jet.t) : list Trijet.t :=
  filter has_btag (map Trijet.make (ak.combinations3 ev)).

(** The candidate [ak.argmax] points at. *)
Definition pick (cs : list Trijet.t) : option Trijet.t :=
  match cs with
  | [] => None
  | c :: t =>
      nth_error cs (ak.argmax_from (trijet_pt c) 0 1 (map trijet_pt t))
  end.

(** What the observable holds for one event: the missing value when no
    candidate survives, else the mass of a surviving candidate of largest
    transverse momentum. *)
Definition entry_of (ev : list Jet.t) (o : option Q) : Prop :=
  (candidates ev = [] /\ o = None) \/
  (exists c, In c (candidates ev) /\
             (forall c', In c' (candidates ev) ->
                         (trijet_pt c' <= trijet_pt c)%Q) /\
             o = Some (trijet_mass c)).

(** The reading under which an event without surviving candidate adds
    nothing to the observable: the observable has as many entries as there
    are events with a surviving candidate. *)
Definition no_entry_without_candidates : Prop :=
  forall jets obs,
    calculate_m_reco_top jets = Some obs ->
    List.length obs
    = List.length
        (filter (fun ev => match candidates ev with
                           | [] => false
                           | _ :: _ => true
                           end) jets).

End TrijetVocabulary.


(** The shape of a jagged array: the number of objects of each event. *)
Definition shape {A} (a : list (list A)) : list nat :=
  map (fun ev => List.length ev) a.

(** The jets a pass works on, from the layout of the events: the nominal
    jets, with their momenta multiplied by the column of the shift when the
    variation is a kinematic one. *)
Definition shifted_jets (e : NanoEvents) (syst_var : string)
  : option (list (list Jet.t)) :=
  if str_in syst_var jet_kinematic_systs then
    let? shift := lookup syst_var (attached e) in
    let? pt := mul_column (jets_pt (map Jet (rows e))) shift in
    zip_events (ak.zip_with Jet.with_pt) (map Jet (rows e)) pt
  else Some (map Jet (rows e)).

(** The wording of the specification for a kinematic shift, to compare the
    pass with: every nominal jet keeps its fields but the momentum, which is
    the nominal momentum times the multiplier the column of the shift holds
    for it: the number of its event in a column with one number per event,
    the number at its own place in a column with one number per jet. *)
Definition momentum_times (shift : Column) (nominal : list (list Jet.t))
  : list (list Jet.t) :=
  match shift with
  | PerEvent c =>
      map (fun evx =>
             map (fun j => Jet.with_pt j (Jet.pt j * snd evx)%Q) (fst evx))
        (combine nominal c)
  | PerObject c =>
      map (fun evxs =>
             map (fun jx => Jet.with_pt (fst jx) (Jet.pt (fst jx) * snd jx)%Q)
               (combine (fst evxs) (snd evxs)))
        (combine nominal c)
  end.

(** The column of the shift holds one multiplier for every event, or one for
    every jet. *)
Definition multipliers_fit (shift : Column) (nominal : list (list Jet.t))
  : Prop :=
  match shift with
  | PerEvent c => List.length c = List.length nominal
  | PerObject c => shape c = shape nominal
  end.

(** The selected objects of a pass, event by event. *)
Definition selected_events (rows : list Event) (jets : list (list Jet.t))
  : list Event :=
  map (fun rj => {| Electron := filter electron_reqs (Electron (fst rj));
                    Muon := filter muon_reqs (Muon (fst rj));
                    Jet := filter jet_reqs (snd rj) |})
    (combine rows jets).

(** The selection object [region_selection] returns on these events. *)
Definition packed_selection (evs : list Event) : PackedSelection.t :=
  {| PackedSelection._names := region_names;
     PackedSelection._data := Some (map packed evs) |}.

(** The layout of the events once the two shift columns are attached. *)
Definition with_shifts (rand_gauss : list (list Q) -> list (list Q))
  (e : NanoEvents) : NanoEvents :=
  {| rows := rows e;
     attached :=
       ("pt_res_up", PerObject (rand_gauss (jets_pt (map Jet (rows e)))))
       :: ("pt_scale_up", PerEvent (repeat 1.03%Q (List.length (rows e))))
       :: attached e;
     metadata := metadata e |}.

(** ** What a pass puts into the histograms *)

Section PassVocabulary.
Context {V : Vector4}.
Variable evaluate : string -> string -> Q -> Q.

(** The events of a region among the selected events. *)
Definition region_events (region : string) (evs : list Event) : list Event :=
  match mask_of region with
  | Some f => filter f evs
  | None => []
  end.

(** The scalar sum of the jet momenta of one event. *)
Definition ht (ev : Event) : Q := fold_left Qplus (map Jet.pt (Jet ev)) 0%Q.

(** The trijet mass of one event, when a candidate survives. *)
Definition m_reco_top (ev : Event) : option Q :=
  option_map trijet_mass (pick (candidates (Jet ev))).

Definition region_observable (region : string) (evs : list Event)
  : list (option Q) :=
  if String.eqb region "4j1b"
  then map (fun ev => Some (ht ev)) (region_events region evs)
  else map m_reco_top (region_events region evs).

(** The momentum of the jet at position [i] of one event. *)
Definition nth_jet_pt (i : nat) (ev : Event) : Q :=
  nth i (map Jet.pt (Jet ev)) 0%Q.

(** The family and the jet position a weight-type variation names. *)
Definition weight_source (syst_var : string) : option (string * nat) :=
  if String.eqb syst_var "scale_var" then Some ("scale_var", 0)
  else if String.prefix "btag_var" syst_var then
    let? i_jet := int (rsplit_last "_"%char syst_var) in
    Some ("btag_var", i_jet)
  else None.

Definition weight_fill (process : string) (w : Q) (syst_var family : string)
  (i : nat) (region : string) (evs : list Event) (direction : string)
  : Fill.t :=
  {| Fill.observable := region_observable region evs;
     Fill.process := process;
     Fill.variation := (syst_var ++ "_" ++ direction)%string;
     Fill.weight :=
       map (fun ev => (1 * w * evaluate family direction (nth_jet_pt i ev))%Q)
         (region_events region evs) |}.

Definition weight_query (family : string) (i : nat) (region : string)
  (evs : list Event) (direction : string) : Query.t :=
  {| Query.family := family; Query.direction := direction;
     Query.input := map (nth_jet_pt i) (region_events region evs) |}.

Definition plain_fill (process variation : string) (w : Q)
  (syst_var region : string) (evs : list Event) : Fill.t :=
  {| Fill.observable := region_observable region evs;
     Fill.process := process;
     Fill.variation :=
       if negb (String.eqb variation "nominal") then variation else syst_var;
     Fill.weight := map (fun _ => (1 * w)%Q) (region_events region evs) |}.

Definition pass_fills (process variation : string) (w : Q)
  (syst_var region : string) (evs : list Event) : list Fill.t :=
  if str_in syst_var (event_systs process) then
    match weight_source syst_var with
    | Some (family, i) =>
        [weight_fill process w syst_var family i region evs "up";
         weight_fill process w syst_var family i region evs "down"]
    | None => []
    end
  else [plain_fill process variation w syst_var region evs].

Definition pass_queries (process syst_var region : string)
  (evs : list Event) : list Query.t :=
  if str_in syst_var (event_systs process) then
    match weight_source syst_var with
    | Some (family, i) =>
        [weight_query family i region evs "up";
         weight_query family i region evs "down"]
    | None => []
    end
  else [].

(** A histogram dictionary with more fills under one key. *)
Definition extend (region : string) (fills : list Fill.t)
  (d : list (string * list Fill.t)) : list (string * list Fill.t) :=
  map (fun kh => if String.eqb (fst kh) region
                 then (fst kh, snd kh ++ fills) else kh) d.

End PassVocabulary.

(** The histogram dictionary of the processor has the two region keys. *)
Definition two_regions (d : list (string * list Fill.t)) : Prop :=
  map fst d = ["4j1b"; "4j2b"].

(** The jets and the selected events of the pass of one variation. *)
Definition jets_of (e : NanoEvents) (syst_var : string)
  : list (list Jet.t) :=
  match shifted_jets e syst_var with
  | Some j => j
  | None => []
  end.

Definition pass_events (e : NanoEvents) (syst_var : string) : list Event :=
  selected_events (rows e) (jets_of e syst_var).

(** ** What a chunk puts into the histograms *)

Section RunVocabulary.
Context {V : Vector4}.
Variable rand_gauss : list (list Q) -> list (list Q).
Variable evaluate : string -> string -> Q -> Q.

(** The variations a chunk runs through. *)
Definition chunk_variations (e : NanoEvents) : list string :=
  syst_variations (Metadata.process (metadata e))
    (Metadata.variation (metadata e)).

(** The fills of one region over the passes of the chunk. *)
Definition chunk_fills (e : NanoEvents) (w : Q) (region : string)
  : list Fill.t :=
  flat_map (fun sv =>
              pass_fills evaluate (Metadata.process (metadata e))
                (Metadata.variation (metadata e)) w sv region
                (pass_events (with_shifts rand_gauss e) sv))
    (chunk_variations e).

(** The calls of the correction set over the passes of the chunk. *)
Definition chunk_queries (e : NanoEvents) : list Query.t :=
  flat_map (fun sv =>
              pass_queries (Metadata.process (metadata e)) sv "4j1b"
                (pass_events (with_shifts rand_gauss e) sv)
              ++ pass_queries (Metadata.process (metadata e)) sv "4j2b"
                   (pass_events (with_shifts rand_gauss e) sv))
    (chunk_variations e).

(** The state a chunk ends in: the batch with its two shift columns at
    address 0, then the jets object of each pass. *)
Definition chunk_state (e : NanoEvents) (w : Q) : State :=
  {| heap :=
       ObjEvents (with_shifts rand_gauss e)
       :: map (fun sv => ObjJets (jets_of (with_shifts rand_gauss e) sv))
            (chunk_variations e);
     hist_dict := [("4j1b", chunk_fills e w "4j1b");
                   ("4j2b", chunk_fills e w "4j2b")];
     cset_calls := chunk_queries e |}.

(** The batch is well formed for the processor: the normalisation is defined
    and the drawn multipliers have the shape of the jets. *)
Definition chunk_ok (e : NanoEvents) (w : Q) : Prop :=
  xsec_weight (Metadata.process (metadata e)) (Metadata.xsec (metadata e))
    (Metadata.nevts (metadata e)) = Some w /\
  shape (rand_gauss (jets_pt (map Jet (rows e)))) = shape (map Jet (rows e)).

End RunVocabulary.

(** ** Closed examples *)

(** An interface instance for closed examples: a vector is the pair of a
    transverse momentum and a mass, and both add up. *)
Definition additive_vectors : Vector4 :=
  {| LorentzVector := Q * Q;
     p4_of_jet := fun j => (Jet.pt j, Jet.mass j);
     p4_add := fun a b => (Qred (fst a + fst b), Qred (snd a + snd b));
     p4_pt := fst;
     p4_mass := snd |}.

(** Objects for closed examples. *)
Definition a_jet (pt btag : Q) : Jet.t :=
  {| Jet.pt := pt; Jet.eta := 0%Q; Jet.phi := 0%Q; Jet.mass := 10%Q;
     Jet.btagCSVV2 := btag; Jet.isTightLeptonVeto := true |}.

Definition a_muon : Muon.t :=
  {| Muon.pt := 40%Q; Muon.eta := 1%Q; Muon.tightId := true;
     Muon.sip3d := 1%Q; Muon.pfRelIso04_all := 0.1%Q |}.

(** One muon and four jets with b-tag scores 0.9, 0.9, 0.1, 0.1. *)
Definition event_2b : Event :=
  {| Electron := []; Muon := [a_muon];
     Jet := [a_jet 50%Q 0.9%Q; a_jet 45%Q 0.9%Q; a_jet 40%Q 0.1%Q;
             a_jet 35%Q 0.1%Q] |}.

(** One muon, one b-tagged jet among four, and a fifth jet just below the
    momentum cut. *)
Definition event_1b : Event :=
  {| Electron := []; Muon := [a_muon];
     Jet := [a_jet 50%Q 0.9%Q; a_jet 45%Q 0.2%Q; a_jet 40%Q 0.1%Q;
             a_jet 35%Q 0.1%Q; a_jet 29.5%Q 0.1%Q] |}.

Definition event_empty : Event := {| Electron := []; Muon := []; Jet := [] |}.

(** A chunk, multipliers and a correction for closed examples. *)
Definition a_chunk (process variation : string) : NanoEvents :=
  {| rows := [event_2b; event_1b; event_empty];
     attached := [];
     metadata := {| Metadata.process := process;
                    Metadata.variation := variation;
                    Metadata.xsec := 800%Q;
                    Metadata.nevts := 1000000%Z;
                    Metadata.dataset := "sample" |} |}.

Definition a_smearing (pt : list (list Q)) : list (list Q) :=
  map (map (fun _ => 1.1%Q)) pt.

Definition a_correction (family direction : string) (x : Q) : Q :=
  if String.eqb direction "up" then 2%Q else 0.5%Q.

Definition a_weight : Q := (800 * inject_Z 3378 / inject_Z 1000000)%Q.

From Stdlib Require DecimalNat DecimalFacts.
From Stdlib Require Import Lqa.
Close Scope Q_scope.

(** ** The plain awkward version of the trijet mass: [calculate_trijet_mass] *)

(** [ak.count(a, axis=1)]: the number of values of each event that are not
    missing; the arrays counted here hold no missing value. *)
Definition ak_count {A} (a : list (list A)) : list nat :=
  map (fun ev => List.length ev) a.

(** The object cuts of [calculate_trijet_mass]. *)
Definition loose_electron_reqs (e : Electron.t) : bool :=
  Qgtb (Electron.pt e) 30%Q && Qltb (Qabs (Electron.eta e)) 2.1%Q.

Definition loose_muon_reqs (m : Muon.t) : bool :=
  Qgtb (Muon.pt m) 30%Q && Qltb (Qabs (Muon.eta m)) 2.1%Q.

Definition loose_jet_reqs (j : Jet.t) : bool :=
  Qgtb (Jet.pt j) 25%Q && Qltb (Qabs (Jet.eta j)) 2.4%Q.

Section PlainObservable.
Context {V : Vector4}.

Definition calculate_trijet_mass (events : NanoEvents)
  : option (list (option Q)) :=
  let selected_electrons :=
    ak.mask_objects loose_electron_reqs (map Electron (rows events)) in
  let selected_muons :=
    ak.mask_objects loose_muon_reqs (map Muon (rows events)) in
  let selected_jets :=
    ak.mask_objects loose_jet_reqs (map Jet (rows events)) in
  let? nlep :=
    ak.zip_with Nat.add
      (ak_count (map (map Electron.pt) selected_electrons))
      (ak_count (map (map Muon.pt) selected_muons)) in
  let event_filters := map (fun n => Nat.eqb n 1) nlep in
  let? event_filters :=
    ak.zip_with andb event_filters
      (map (fun n => Nat.leb 4 n) (ak_count (jets_pt selected_jets))) in
  let? event_filters :=
    ak.zip_with andb event_filters
      (map (fun n => Nat.leb 2 n) (ak.sum_bool (btagged selected_jets))) in
  let? selected_jets := ak.mask_events selected_jets event_filters in
  let trijet :=
    map (fun ev => map Trijet.make (ak.combinations3 ev)) selected_jets in
  let trijet := ak.mask_objects has_btag trijet in
  let idx :=
    ak.argmax_keepdims (map (map (fun c => p4_pt (Trijet.p4 c))) trijet) in
  let? best := ak.take (map (map Trijet.p4) trijet) idx in
  let trijet_mass := map (map (option_map p4_mass)) best in
  Some (ak.flatten trijet_mass).

End PlainObservable.

(** The objects of one event that pass the cuts of [calculate_trijet_mass]. *)
Definition loose_event (ev : Event) : Event :=
  {| Electron := filter loose_electron_reqs (Electron ev);
     Muon := filter loose_muon_reqs (Muon ev);
     Jet := filter loose_jet_reqs (Jet ev) |}.

(** The objects of one event that pass the cuts of [object_selection]. *)
Definition tight_event (ev : Event) : Event :=
  {| Electron := filter electron_reqs (Electron ev);
     Muon := filter muon_reqs (Muon ev);
     Jet := filter jet_reqs (Jet ev) |}.

(** The jets of one event with the momenta of the scale shift. *)
Definition scale_up (ev : Event) : Event :=
  {| Electron := Electron ev; Muon := Muon ev;
     Jet := map (fun j => Jet.with_pt j (Jet.pt j * 1.03)%Q) (Jet ev) |}.

(** The value on one event of the mask a name stands for. *)
Definition mask_value (name : string) (ev : Event) : bool :=
  match mask_of name with
  | Some f => f ev
  | None => false
  end.

(** A data chunk whose metadata count no generated events, for closed
    examples. *)
Definition a_data_chunk : NanoEvents :=
  {| rows := [event_2b; event_1b; event_empty];
     attached := [];
     metadata := {| Metadata.process := "data";
                    Metadata.variation := "nominal";
                    Metadata.xsec := 0%Q;
                    Metadata.nevts := 0%Z;
                    Metadata.dataset := "collisions" |} |}.

(** A jet whose b-tag score is not above the threshold. *)
Definition untagged (j : Jet.t) : bool :=
  negb (Qgtb (Jet.btagCSVV2 j) B_TAG_THRESHOLD).

(** * Properties *)

(** ** Elementwise operations on arrays of one batch *)

Lemma zip_with_map {X A B C} (f : A -> B -> C) (g : X -> A) (h : X -> B)
  (xs : list X) :
  ak.zip_with f (map g xs) (map h xs) = Some (map (fun x => f (g x) (h x)) xs).
Proof.
  induction xs as [|x xs IH]; simpl; [reflexivity|].
  now rewrite IH.
Qed.

Lemma repeat_as_map {X A} (c : A) (xs : list X) :
  repeat c (List.length xs) = map (fun _ => c) xs.
Proof. induction xs; simpl; congruence. Qed.

Lemma take_events {X A} (f : X -> list A) (g : X -> list (option nat))
  (h : X -> list (option A)) (xs : list X) :
  (forall x, ak.take_event (f x) (g x) = Some (h x)) ->
  ak.take (map f xs) (map g xs) = Some (map h xs).
Proof.
  intro H. induction xs as [|x xs IH]; simpl; [reflexivity|].
  now rewrite H, IH.
Qed.

Lemma flatten_singletons {X A} (f : X -> A) (xs : list X) :
  List.concat (map (fun x => [f x]) xs) = map f xs.
Proof. induction xs; simpl; congruence. Qed.

Lemma Forall2_maps {X A B} (P : A -> B -> Prop) (f : X -> A) (g : X -> B)
  (xs : list X) :
  (forall x, In x xs -> P (f x) (g x)) -> Forall2 P (map f xs) (map g xs).
Proof.
  induction xs as [|x xs IH]; intro H; simpl; constructor.
  - apply H. now left.
  - apply IH. intros y Hy. apply H. now right.
Qed.

(** ** Region masks *)

Lemma filter_id_map {A} (f : A -> bool) (l : list A) :
  List.length (filter (fun b : bool => b) (map f l))
  = List.length (filter f l).
Proof.
  induction l as [|x l IH]; simpl; [reflexivity|].
  destruct (f x); simpl; congruence.
Qed.

(** The four atomic selections of [region_selection], event by event. *)
Lemma nlep_events (evs : list Event) :
  ak.zip_with Nat.add (ak.num (map Electron evs)) (ak.num (map Muon evs))
  = Some (map (fun ev => List.length (Electron ev) + List.length (Muon ev))
            evs).
Proof. unfold ak.num. rewrite !map_map. apply zip_with_map. Qed.

Lemma sel_exactly_1l (evs : list Event) :
  map (fun n => Nat.eqb n 1)
    (map (fun ev => List.length (Electron ev) + List.length (Muon ev)) evs)
  = map exactly_1l evs.
Proof. now rewrite map_map. Qed.

Lemma sel_atleast_4j (evs : list Event) :
  map (fun n => Nat.leb 4 n) (ak.num (map Jet evs)) = map atleast_4j evs.
Proof. unfold ak.num. now rewrite !map_map. Qed.

Lemma sel_exactly_1b (evs : list Event) :
  map (fun n => Nat.eqb n 1) (ak.sum_bool (btagged (map Jet evs)))
  = map exactly_1b evs.
Proof.
  unfold ak.sum_bool, btagged. rewrite !map_map.
  apply map_ext; intro ev. unfold exactly_1b, n_btagged.
  now rewrite filter_id_map.
Qed.

Lemma sel_atleast_2b (evs : list Event) :
  map (fun n => Nat.leb 2 n) (ak.sum_bool (btagged (map Jet evs)))
  = map atleast_2b evs.
Proof.
  unfold ak.sum_bool, btagged. rewrite !map_map.
  apply map_ext; intro ev. unfold atleast_2b, n_btagged.
  now rewrite filter_id_map.
Qed.

(** Registration and lookup on a selection whose integers are given event by
    event. *)
Lemma add_first {X} (name : string) (h : X -> bool) (xs : list X) :
  PackedSelection.add PackedSelection.new name (map h xs)
  = Some {| PackedSelection._names := [name];
            PackedSelection._data :=
              Some (map (fun x => PackedSelection.set_bit 0 0%Z (h x)) xs) |}.
Proof.
  unfold PackedSelection.add; simpl.
  now rewrite length_map, repeat_as_map, zip_with_map.
Qed.

Lemma add_next {X} (names : list string) (g : X -> Z) (name : string)
  (h : X -> bool) (xs : list X) :
  names <> [] ->
  existsb (String.eqb name) names = false ->
  List.length names < PackedSelection.maxitems ->
  PackedSelection.add
    {| PackedSelection._names := names;
       PackedSelection._data := Some (map g xs) |} name (map h xs)
  = Some {| PackedSelection._names := names ++ [name];
            PackedSelection._data :=
              Some (map (fun x =>
                           PackedSelection.set_bit (List.length names)
                             (g x) (h x)) xs) |}.
Proof.
  intros Hne Hfresh Hlt.
  unfold PackedSelection.add, PackedSelection.has_name; simpl.
  rewrite Hfresh.
  destruct names as [|n names]; [congruence|].
  destruct (Nat.eqb_spec (List.length (n :: names)) PackedSelection.maxitems)
    as [E|_]; [lia|].
  now rewrite !length_map, Nat.eqb_refl, zip_with_map.
Qed.

Lemma require_events {X} (names : list string) (g : X -> Z)
  (cuts : list (string * bool)) (c r : Z) (xs : list X) :
  forallb (fun cut => existsb (String.eqb (fst cut)) names) cuts = true ->
  PackedSelection.masks names cuts = Some (c, r) ->
  PackedSelection.require
    {| PackedSelection._names := names;
       PackedSelection._data := Some (map g xs) |} cuts
  = Some (map (fun x => Z.eqb (Z.land (g x) c) r) xs).
Proof.
  intros Hknown Hmasks.
  unfold PackedSelection.require, PackedSelection.has_name; simpl.
  now rewrite Hknown, Hmasks, map_map.
Qed.


Ltac packed_side :=
  first [ discriminate | reflexivity | unfold PackedSelection.maxitems; simpl; lia ].

Lemma region_selection_packed (evs : list Event) :
  region_selection (map Electron evs) (map Muon evs) (map Jet evs)
  = Some {| PackedSelection._names := region_names;
            PackedSelection._data := Some (map packed evs) |}.
Proof.
  unfold region_selection.
  rewrite nlep_events, sel_exactly_1l, sel_atleast_4j, sel_exactly_1b,
    sel_atleast_2b.
  rewrite add_first.
  rewrite add_next by packed_side.
  rewrite add_next by packed_side.
  rewrite add_next by packed_side.
  unfold PackedSelection.all.
  rewrite (@require_events _ _ _ _ 7%Z 7%Z) by reflexivity.
  rewrite add_next by packed_side.
  rewrite (@require_events _ _ _ _ 11%Z 11%Z) by reflexivity.
  rewrite add_next by packed_side.
  do 3 f_equal. apply map_ext; intro ev.
  unfold packed, in_4j1b, in_4j2b.
  destruct (exactly_1l ev), (atleast_4j ev), (exactly_1b ev), (atleast_2b ev);
    reflexivity.
Qed.

(** Looking a registered name up gives the mask it stands for. *)
Lemma packed_lookup (evs : list Event) (name : string) (f : Event -> bool) :
  mask_of name = Some f ->
  PackedSelection.all
    {| PackedSelection._names := region_names;
       PackedSelection._data := Some (map packed evs) |} [name]
  = Some (map f evs).
Proof.
  unfold mask_of; cbn [lookup].
  repeat match goal with
  | |- (if String.eqb ?a name then _ else _) = _ -> _ =>
      destruct (String.eqb_spec a name) as [<-|_]
  end; intro H; try discriminate; inversion H; subst; clear H.
  all: unfold PackedSelection.all; cbn [map].
  1: rewrite (@require_events _ _ _ _ 1%Z 1%Z) by reflexivity.
  2: rewrite (@require_events _ _ _ _ 2%Z 2%Z) by reflexivity.
  3: rewrite (@require_events _ _ _ _ 4%Z 4%Z) by reflexivity.
  4: rewrite (@require_events _ _ _ _ 8%Z 8%Z) by reflexivity.
  5: rewrite (@require_events _ _ _ _ 16%Z 16%Z) by reflexivity.
  6: rewrite (@require_events _ _ _ _ 32%Z 32%Z) by reflexivity.
  all: f_equal; apply map_ext; intro ev; unfold packed, in_4j1b, in_4j2b;
    destruct (exactly_1l ev), (atleast_4j ev), (exactly_1b ev),
      (atleast_2b ev); reflexivity.
Qed.

(** ** Comparisons of rationals *)

Lemma Qgtb_true (x y : Q) : Qgtb x y = true <-> (y < x)%Q.
Proof.
  unfold Qgtb. rewrite negb_true_iff, <- not_true_iff_false, Qle_bool_iff.
  split; [apply Qnot_le_lt | apply Qlt_not_le].
Qed.

Lemma Qgtb_false (x y : Q) : Qgtb x y = false <-> (x <= y)%Q.
Proof. unfold Qgtb. now rewrite negb_false_iff, Qle_bool_iff. Qed.

Lemma np_maximum_l (x y : Q) : (x <= np_maximum x y)%Q.
Proof.
  unfold np_maximum. destruct (Qle_bool x y) eqn:E.
  - now apply Qle_bool_iff.
  - apply Qle_refl.
Qed.

Lemma np_maximum_r (x y : Q) : (y <= np_maximum x y)%Q.
Proof.
  unfold np_maximum. destruct (Qle_bool x y) eqn:E.
  - apply Qle_refl.
  - apply Qlt_le_weak, Qnot_le_lt. rewrite <- Qle_bool_iff. congruence.
Qed.

Lemma np_maximum_cases (x y : Q) : np_maximum x y = x \/ np_maximum x y = y.
Proof. unfold np_maximum. destruct (Qle_bool x y); auto. Qed.

(** ** [np.argmax]: the first position of the largest value *)

Lemma argmax_from_spec (l pre : list Q) (best : Q) (ibest : nat) :
  nth_error pre ibest = Some best ->
  (forall y, In y pre -> (y <= best)%Q) ->
  (forall j y, j < ibest -> nth_error pre j = Some y -> (y < best)%Q) ->
  let k := ak.argmax_from best ibest (List.length pre) l in
  exists m,
    nth_error (pre ++ l) k = Some m /\
    (forall y, In y (pre ++ l) -> (y <= m)%Q) /\
    (forall j y, j < k -> nth_error (pre ++ l) j = Some y -> (y < m)%Q).
Proof.
  revert pre best ibest.
  induction l as [|x l IH]; intros pre best ibest Hb Hmax Hfirst; simpl.
  - rewrite app_nil_r. eauto.
  - assert (Hlen : ibest < List.length pre)
      by (apply nth_error_Some; congruence).
    replace (pre ++ x :: l) with ((pre ++ [x]) ++ l)
      by now rewrite <- app_assoc.
    replace (S (List.length pre)) with (List.length (pre ++ [x]))
      by (rewrite length_app; simpl; lia).
    destruct (Qgtb x best) eqn:E.
    + apply Qgtb_true in E. apply IH.
      * rewrite nth_error_app2, Nat.sub_diag by lia. reflexivity.
      * intros y Hy. apply in_app_or in Hy as [Hy|[<-|[]]].
        -- apply Qlt_le_weak, Qle_lt_trans with best; auto.
        -- apply Qle_refl.
      * intros j y Hj Hy. rewrite nth_error_app1 in Hy by lia.
        apply Qle_lt_trans with best; auto.
        apply Hmax. eapply nth_error_In; eauto.
    + apply Qgtb_false in E. apply IH.
      * rewrite nth_error_app1 by lia. assumption.
      * intros y Hy. apply in_app_or in Hy as [Hy|[<-|[]]]; auto.
      * intros j y Hj Hy. rewrite nth_error_app1 in Hy by lia. eauto.
Qed.

(** ** [ak.combinations]: every choice of positions [i < j < k], once *)

Lemma in_pairs {A} (l : list A) (a b : A) :
  In (a, b) (ak.pairs l) <->
  exists i j, i < j /\ nth_error l i = Some a /\ nth_error l j = Some b.
Proof.
  induction l as [|x t IH]; simpl.
  - split; [tauto|]. intros (i & j & _ & H & _). now destruct i.
  - rewrite in_app_iff, in_map_iff, IH. split.
    + intros [(y & Hy & Hin)|(i & j & Hij & Hi & Hj)].
      * inversion Hy; subst. apply In_nth_error in Hin as (j & Hj).
        exists 0, (S j). repeat split; auto; lia.
      * exists (S i), (S j). repeat split; auto; lia.
    + intros (i & j & Hij & Hi & Hj).
      destruct j as [|j]; [lia|]. destruct i as [|i]; simpl in *.
      * left. exists b. inversion Hi; subst. split; auto.
        eapply nth_error_In; eauto.
      * right. exists i, j. repeat split; auto; lia.
Qed.

Lemma in_combinations3 {A} (l : list A) (a b c : A) :
  In (a, b, c) (ak.combinations3 l) <->
  exists i j k, i < j /\ j < k /\ nth_error l i = Some a /\
                nth_error l j = Some b /\ nth_error l k = Some c.
Proof.
  induction l as [|x t IH]; simpl.
  - split; [tauto|]. intros (i & j & k & _ & _ & H & _). now destruct i.
  - rewrite in_app_iff, in_map_iff, IH. split.
    + intros [([y z] & Hy & Hin)|(i & j & k & Hij & Hjk & Hi & Hj & Hk)].
      * inversion Hy; subst. apply in_pairs in Hin as (j & k & ? & ? & ?).
        exists 0, (S j), (S k). repeat split; auto; lia.
      * exists (S i), (S j), (S k). repeat split; auto; lia.
    + intros (i & j & k & Hij & Hjk & Hi & Hj & Hk).
      destruct j as [|j]; [lia|]. destruct k as [|k]; [lia|].
      destruct i as [|i]; simpl in *.
      * left. exists (b, c). inversion Hi; subst. split; auto.
        apply in_pairs. exists j, k. repeat split; auto; lia.
      * right. exists i, j, k. repeat split; auto; lia.
Qed.

Section TrijetProperties.
Context {V : Vector4}.

Lemma pick_spec (cs : list Trijet.t) :
  cs <> [] ->
  exists k c,
    pick cs = Some c /\ nth_error cs k = Some c /\
    (forall c', In c' cs -> (trijet_pt c' <= trijet_pt c)%Q) /\
    (forall j c', j < k -> nth_error cs j = Some c' ->
                  (trijet_pt c' < trijet_pt c)%Q).
Proof.
  destruct cs as [|c t]; [congruence|intros _].
  destruct (@argmax_from_spec (map trijet_pt t) [trijet_pt c]
              (trijet_pt c) 0) as (m & Hk & Hmax & Hfirst).
  - reflexivity.
  - intros y [<-|[]]. apply Qle_refl.
  - intros j y Hj; lia.
  - simpl List.length in *.
    set (k := ak.argmax_from (trijet_pt c) 0 1 (map trijet_pt t)) in *.
    change ([trijet_pt c] ++ map trijet_pt t)
      with (map trijet_pt (c :: t)) in *.
    rewrite nth_error_map in Hk.
    destruct (nth_error (c :: t) k) as [b|] eqn:Eb; [|discriminate].
    inversion Hk; subst m. exists k, b. repeat split; auto.
    + intros c' Hc'. apply Hmax. now apply in_map.
    + intros j c' Hj Hc'. apply (Hfirst j); auto.
      rewrite nth_error_map, Hc'. reflexivity.
Qed.

Lemma take_one_picked (cs : list Trijet.t) :
  ak.take_event (map Trijet.p4 cs)
    match map trijet_pt cs with
    | [] => [None]
    | x :: t => [Some (ak.argmax_from x 0 1 t)]
    end
  = Some [option_map Trijet.p4 (pick cs)].
Proof.
  destruct cs as [|c t]; [reflexivity|].
  destruct (pick_spec (cs := c :: t)) as (k & b & Hp & _); [discriminate|].
  rewrite Hp. unfold pick in Hp.
  cbn [map ak.take_event ak.take_one].
  change (Trijet.p4 c :: map Trijet.p4 t) with (map Trijet.p4 (c :: t)).
  now rewrite nth_error_map, Hp.
Qed.

(** Event by event, the observable is the mass of the picked candidate, and
    the missing value when no candidate survives. *)
Lemma calculate_m_reco_top_events (jets : list (list Jet.t)) :
  calculate_m_reco_top jets
  = Some (map (fun ev => option_map trijet_mass (pick (candidates ev)))
            jets).
Proof.
  unfold calculate_m_reco_top, ak.mask_objects, ak.argmax_keepdims,
    ak.flatten.
  rewrite !map_map.
  rewrite (@take_events _ _ _ _
             (fun ev => [option_map Trijet.p4 (pick (candidates ev))])).
  - f_equal. rewrite map_map. cbn [map].
    rewrite flatten_singletons. apply map_ext; intro ev.
    now destruct (pick (candidates ev)).
  - intro ev. fold (candidates ev).
    rewrite <- (take_one_picked (candidates ev)). reflexivity.
Qed.

Lemma has_btag_make (a b c : Jet.t) :
  has_btag (Trijet.make (a, b, c)) = true <->
  (B_TAG_THRESHOLD < Jet.btagCSVV2 a)%Q \/
  (B_TAG_THRESHOLD < Jet.btagCSVV2 b)%Q \/
  (B_TAG_THRESHOLD < Jet.btagCSVV2 c)%Q.
Proof.
  unfold has_btag; cbn [Trijet.make Trijet.max_btag].
  rewrite Qgtb_true. split.
  - intro H.
    destruct (np_maximum_cases (Jet.btagCSVV2 a)
                (np_maximum (Jet.btagCSVV2 b) (Jet.btagCSVV2 c))) as [E|E];
      rewrite E in H; auto.
    destruct (np_maximum_cases (Jet.btagCSVV2 b) (Jet.btagCSVV2 c))
      as [E'|E']; rewrite E' in H; auto.
  - intros [H|[H|H]].
    + eapply Qlt_le_trans; [exact H|apply np_maximum_l].
    + eapply Qlt_le_trans; [exact H|].
      eapply Qle_trans; [apply np_maximum_l|apply np_maximum_r].
    + eapply Qlt_le_trans; [exact H|].
      eapply Qle_trans; [apply np_maximum_r|apply np_maximum_r].
Qed.

(** The surviving candidates are the triples of positions [i < j < k] with
    a b-tagged jet among them. *)
Lemma in_candidates (ev : list Jet.t) (t : Trijet.t) :
  In t (candidates ev) <->
  exists i j k a b c,
    i < j /\ j < k /\ nth_error ev i = Some a /\ nth_error ev j = Some b /\
    nth_error ev k = Some c /\ t = Trijet.make (a, b, c) /\
    ((B_TAG_THRESHOLD < Jet.btagCSVV2 a)%Q \/
     (B_TAG_THRESHOLD < Jet.btagCSVV2 b)%Q \/
     (B_TAG_THRESHOLD < Jet.btagCSVV2 c)%Q).
Proof.
  unfold candidates. rewrite filter_In, in_map_iff. split.
  - intros (([[a b] c] & <- & Hin) & Hb).
    apply in_combinations3 in Hin as (i & j & k & ? & ? & ? & ? & ?).
    apply has_btag_make in Hb.
    exists i, j, k, a, b, c. repeat split; auto.
  - intros (i & j & k & a & b & c & ? & ? & ? & ? & ? & -> & Hb).
    split; [|now apply has_btag_make].
    exists (a, b, c). split; auto.
    apply in_combinations3. exists i, j, k. repeat split; auto.
Qed.

(** Three jets, one of them b-tagged, leave a candidate. *)
Lemma candidates_nonempty (ev : list Jet.t) (j : Jet.t) :
  3 <= List.length ev -> In j ev ->
  (B_TAG_THRESHOLD < Jet.btagCSVV2 j)%Q ->
  candidates ev <> [].
Proof.
  intros Hlen Hin Hb.
  apply In_nth_error in Hin as (p & Hp).
  destruct ev as [|a [|b [|c t]]]; simpl in Hlen; try lia.
  assert (Hex : exists x, In x (candidates (a :: b :: c :: t))).
  { destruct p as [|[|p]].
    - exists (Trijet.make (a, b, c)). apply in_candidates.
      exists 0, 1, 2, a, b, c. inversion Hp; subst.
      repeat split; auto.
    - exists (Trijet.make (a, b, c)). apply in_candidates.
      exists 0, 1, 2, a, b, c. inversion Hp; subst.
      repeat split; auto.
    - exists (Trijet.make (a, b, j)). apply in_candidates.
      exists 0, 1, (S (S p)), a, b, j. repeat split; auto; lia. }
  destruct Hex as (x & Hx). intro E. rewrite E in Hx. exact Hx.
Qed.

End TrijetProperties.

Lemma mask_events_map {X A} (g : X -> A) (f : X -> bool) (xs : list X) :
  ak.mask_events (map g xs) (map f xs) = Some (map g (filter f xs)).
Proof.
  induction xs as [|x xs IH]; simpl; [reflexivity|].
  rewrite IH. now destruct (f x).
Qed.

Lemma n_btagged_scores (ev : Event) :
  n_btagged ev
  = List.length (filter (fun b => Qgtb b B_TAG_THRESHOLD)
                   (map Jet.btagCSVV2 (Jet ev))).
Proof.
  unfold n_btagged. induction (Jet ev) as [|j l IH]; simpl; [reflexivity|].
  destruct (Qgtb (Jet.btagCSVV2 j) B_TAG_THRESHOLD); simpl; congruence.
Qed.

(** ** The claims on the region masks *)

(** C3. The mask "4j1b" is the conjunction of the atomic masks
    exactly-one-lepton, at-least-four-jets and exactly-one-b-tagged-jet, and
    "4j2b" that of exactly-one-lepton, at-least-four-jets and
    at-least-two-b-tagged-jets, a jet being b-tagged when its score is above
    0.5.  An event with one selected lepton and four selected jets of scores
    0.9, 0.9, 0.1, 0.1 is in "4j2b" and not in "4j1b". *)
Theorem region_masks_are_conjunctions (evs : list Event) (ev : Event)
  (Hlep : List.length (Electron ev) + List.length (Muon ev) = 1)
  (Hjets : map Jet.btagCSVV2 (Jet ev) = [0.9; 0.9; 0.1; 0.1]%Q) :
  (exists s,
     region_selection (map Electron evs) (map Muon evs) (map Jet evs)
     = Some s /\
     PackedSelection.all s ["exactly_1l"] = Some (map exactly_1l evs) /\
     PackedSelection.all s ["atleast_4j"] = Some (map atleast_4j evs) /\
     PackedSelection.all s ["exactly_1b"] = Some (map exactly_1b evs) /\
     PackedSelection.all s ["atleast_2b"] = Some (map atleast_2b evs) /\
     PackedSelection.all s ["4j1b"]
     = Some (map (fun e => exactly_1l e && atleast_4j e && exactly_1b e)
               evs) /\
     PackedSelection.all s ["4j2b"]
     = Some (map (fun e => exactly_1l e && atleast_4j e && atleast_2b e)
               evs)) /\
  (exists s,
     region_selection [Electron ev] [Muon ev] [Jet ev] = Some s /\
     PackedSelection.all s ["4j2b"] = Some [true] /\
     PackedSelection.all s ["4j1b"] = Some [false]).
Proof.
  split.
  - eexists. split; [apply region_selection_packed|].
    repeat split; now apply packed_lookup.
  - eexists. split; [apply (region_selection_packed [ev])|].
    assert (Hn : n_btagged ev = 2)
      by (rewrite n_btagged_scores, Hjets; reflexivity).
    assert (Hl : List.length (Jet ev) = 4)
      by (rewrite <- (length_map Jet.btagCSVV2), Hjets; reflexivity).
    split.
    + rewrite (@packed_lookup [ev] "4j2b" in_4j2b) by reflexivity.
      unfold in_4j2b, exactly_1l, atleast_4j, atleast_2b; simpl.
      now rewrite Hlep, Hl, Hn.
    + rewrite (@packed_lookup [ev] "4j1b" in_4j1b) by reflexivity.
      unfold in_4j1b, exactly_1l, atleast_4j, exactly_1b; simpl.
      now rewrite Hlep, Hl, Hn.
Qed.

Lemma region_masks_are_conjunctions_witness :
  (exists s,
     region_selection (map Electron [event_2b; event_1b; event_empty])
       (map Muon [event_2b; event_1b; event_empty])
       (map Jet [event_2b; event_1b; event_empty]) = Some s /\
     PackedSelection.all s ["4j1b"] = Some [false; true; false] /\
     PackedSelection.all s ["4j2b"] = Some [true; false; false]) /\
  (exists s,
     region_selection [Electron event_2b] [Muon event_2b] [Jet event_2b]
     = Some s /\
     PackedSelection.all s ["4j2b"] = Some [true] /\
     PackedSelection.all s ["4j1b"] = Some [false]).
Proof.
  destruct (@region_masks_are_conjunctions
              [event_2b; event_1b; event_empty] event_2b)
    as [(s & Hs & _ & _ & _ & _ & H1 & H2) Hex];
    [reflexivity|reflexivity|].
  split; [|exact Hex].
  exists s. split; [exact Hs|]. split; [exact H1|exact H2].
Defined.

(** C8. Region selection is deterministic: on the same selected objects two
    evaluations give the same boolean sequence, one value per event, for
    every registered name, "4j1b" among them; and asking a selection for the
    same name again gives the same sequence. *)
Theorem region_selection_idempotent (evs : list Event) :
  exists s1 s2,
    region_selection (map Electron evs) (map Muon evs) (map Jet evs)
    = Some s1 /\
    region_selection (map Electron evs) (map Muon evs) (map Jet evs)
    = Some s2 /\
    Forall (fun name =>
              exists m,
                PackedSelection.all s1 [name] = Some m /\
                PackedSelection.all s2 [name] = Some m /\
                PackedSelection.all s1 [name; name] = Some m /\
                List.length m = List.length evs)
      region_names.
Proof.
  do 2 eexists. split; [apply region_selection_packed|].
  split; [apply region_selection_packed|].
  assert (Hdup : forall name f, mask_of name = Some f ->
            PackedSelection.all
              {| PackedSelection._names := region_names;
                 PackedSelection._data := Some (map packed evs) |}
              [name; name]
            = PackedSelection.all
                {| PackedSelection._names := region_names;
                   PackedSelection._data := Some (map packed evs) |}
                [name]).
  { intros name f. unfold mask_of; cbn [lookup].
    repeat match goal with
    | |- (if String.eqb ?a name then _ else _) = _ -> _ =>
        destruct (String.eqb_spec a name) as [<-|_]
    end; intro H; try discriminate; reflexivity. }
  repeat constructor.
  all: match goal with
       | |- exists m, PackedSelection.all _ [?name] = _ /\ _ =>
           let f := eval cbv in (mask_of name) in
           match f with
           | Some ?g =>
               exists (map g evs);
               rewrite (Hdup name g) by reflexivity;
               rewrite (@packed_lookup evs name g) by reflexivity;
               rewrite length_map; auto
           end
       end.
Qed.

(** C9. No event is in "4j1b" and in "4j2b": the atomic masks exactly_1b
    and atleast_2b exclude each other, so the events kept for the two regions
    are disjoint. *)
Theorem regions_4j1b_4j2b_disjoint (evs : list Event) :
  exists s m1 m2 b1 b2,
    region_selection (map Electron evs) (map Muon evs) (map Jet evs)
    = Some s /\
    PackedSelection.all s ["4j1b"] = Some m1 /\
    PackedSelection.all s ["4j2b"] = Some m2 /\
    PackedSelection.all s ["exactly_1b"] = Some b1 /\
    PackedSelection.all s ["atleast_2b"] = Some b2 /\
    List.length m1 = List.length evs /\ List.length m2 = List.length evs /\
    forall i,
      nth i b1 false && nth i b2 false = false /\
      nth i m1 false && nth i m2 false = false.
Proof.
  exists {| PackedSelection._names := region_names;
            PackedSelection._data := Some (map packed evs) |},
    (map in_4j1b evs), (map in_4j2b evs), (map exactly_1b evs),
    (map atleast_2b evs).
  split; [apply region_selection_packed|].
  repeat (split; [now (apply packed_lookup || apply length_map)|]).
  assert (Hx : forall ev, exactly_1b ev && atleast_2b ev = false).
  { intro ev. unfold exactly_1b, atleast_2b.
    destruct (Nat.eqb_spec (n_btagged ev) 1) as [->|]; reflexivity. }
  intro i.
  destruct (Nat.lt_ge_cases i (List.length evs)) as [Hi|Hi].
  - destruct (nth_error evs i) as [ev|] eqn:E;
      [|apply nth_error_None in E; lia].
    apply nth_error_split in E as (l1 & l2 & -> & <-).
    rewrite !map_app; cbn [map].
    rewrite !app_nth2 by (rewrite length_map; lia).
    rewrite !length_map, Nat.sub_diag; cbn [nth].
    split; [apply Hx|].
    unfold in_4j1b, in_4j2b. specialize (Hx ev).
    destruct (exactly_1l ev), (atleast_4j ev), (exactly_1b ev),
      (atleast_2b ev); auto.
  - rewrite !nth_overflow by (rewrite length_map; lia). auto.
Qed.

(** ** The claim on the normalisation *)

(** C6. For a simulated process the normalisation weight is
    [x_sec * 3378 / nevts_total], for data it is 1; with a cross section of
    800 and 1,000,000 generated events it is 2.7024. *)
Theorem xsec_weight_value (process : string) (x_sec : Q) (nevts_total : Z)
  (Hsim : process <> "data") (Hn : nevts_total <> 0%Z) :
  xsec_weight process x_sec nevts_total
  = Some (x_sec * inject_Z 3378 / inject_Z nevts_total)%Q /\
  xsec_weight "data" x_sec nevts_total = Some 1%Q /\
  exists w, xsec_weight process 800%Q 1000000%Z = Some w /\
            (w == 2.7024)%Q.
Proof.
  unfold xsec_weight.
  destruct (String.eqb_spec process "data") as [E|_]; [contradiction|].
  destruct (Z.eqb_spec nevts_total 0) as [E|_]; [contradiction|].
  simpl. repeat split.
  eexists; split; [reflexivity|]. reflexivity.
Qed.

Lemma xsec_weight_value_witness :
  xsec_weight "ttbar" 800%Q 1000000%Z
  = Some (800 * inject_Z 3378 / inject_Z 1000000)%Q /\
  xsec_weight "data" 800%Q 1000000%Z = Some 1%Q /\
  exists w, xsec_weight "ttbar" 800%Q 1000000%Z = Some w /\
            (w == 2.7024)%Q.
Proof.
  apply (@xsec_weight_value "ttbar" 800%Q 1000000%Z).
  - discriminate.
  - discriminate.
Defined.

(** ** The claims on the trijet mass *)

Section TrijetClaims.
Context {V : Vector4}.

Lemma entry_of_pick (ev : list Jet.t) :
  entry_of ev (option_map trijet_mass (pick (candidates ev))).
Proof.
  destruct (candidates ev) as [|c t] eqn:E.
  - left. auto.
  - right. destruct (pick_spec (cs := c :: t)) as (k & b & Hp & Hk & Hmax & _);
      [discriminate|].
    exists b. rewrite E, Hp. repeat split; auto.
    eapply nth_error_In; eauto.
Qed.

(** C2, as the code has it.  The calculator forms the triples of jets at
    positions [i < j < k] of each event, with the sum of the three
    four-momenta and the largest of the three b-tag scores, keeps those whose
    largest score is above 0.5, and gives the mass of a kept triple of largest
    transverse momentum.  The observable has one entry per event: an event
    without a kept triple has the missing value there. *)
Theorem trijet_mass_one_entry_per_event (jets : list (list Jet.t)) :
  (forall ev t,
      In t (candidates ev) <->
      exists i j k a b c,
        i < j /\ j < k /\ nth_error ev i = Some a /\
        nth_error ev j = Some b /\ nth_error ev k = Some c /\
        t = {| Trijet.j1 := a; Trijet.j2 := b; Trijet.j3 := c;
               Trijet.p4 :=
                 p4_add (p4_add (p4_of_jet a) (p4_of_jet b)) (p4_of_jet c);
               Trijet.max_btag :=
                 np_maximum (Jet.btagCSVV2 a)
                   (np_maximum (Jet.btagCSVV2 b) (Jet.btagCSVV2 c)) |} /\
        (0.5 < Trijet.max_btag t)%Q) /\
  (forall ev, List.length ev < 3 -> candidates ev = []) /\
  exists obs,
    calculate_m_reco_top jets = Some obs /\
    List.length obs = List.length jets /\
    Forall2 entry_of jets obs.
Proof.
  split; [|split].
  - intros ev t. rewrite in_candidates. split.
    + intros (i & j & k & a & b & c & ? & ? & ? & ? & ? & -> & Hb).
      exists i, j, k, a, b, c. repeat split; auto.
      apply has_btag_make in Hb. now apply Qgtb_true in Hb.
    + intros (i & j & k & a & b & c & ? & ? & ? & ? & ? & -> & Hb).
      exists i, j, k, a, b, c. repeat split; auto.
      apply (has_btag_make a b c). now apply Qgtb_true.
  - intros [|a [|b [|c ev]]] Hlen; simpl in Hlen; try lia; reflexivity.
  - eexists. split; [apply calculate_m_reco_top_events|].
    split; [apply length_map|].
    induction jets as [|ev jets IH]; simpl; constructor; auto.
    apply entry_of_pick.
Qed.

(** Every event of the "4j2b" region has a surviving candidate. *)
Lemma in_4j2b_candidates (ev : Event) :
  in_4j2b ev = true -> candidates (Jet ev) <> [].
Proof.
  unfold in_4j2b, atleast_4j, atleast_2b, n_btagged.
  rewrite !andb_true_iff, !Nat.leb_le. intros [[_ H4] H2].
  destruct (filter (fun j => Qgtb (Jet.btagCSVV2 j) B_TAG_THRESHOLD) (Jet ev))
    as [|j l] eqn:E; [simpl in H2; lia|].
  assert (Hj : In j (j :: l)) by (left; reflexivity).
  rewrite <- E in Hj. apply filter_In in Hj as [Hin Hb].
  apply candidates_nonempty with j; [lia|assumption|].
  now apply Qgtb_true.
Qed.

(** C10. The "4j2b" mask read back from the selection is true exactly for
    the events with one lepton, at least four jets and at least two of them
    b-tagged, and masking the jets with it keeps the jets of exactly these
    events, in order.  Every such event has a triple of jets whose largest
    score is above the threshold, so that a candidate survives; the
    calculator gives one value for each of them, and the observable is as
    long as the weight array of the region. *)
Theorem region_4j2b_observable_complete (evs : list Event) (w : Q) :
  exists s selection region_jets obs,
    region_selection (map Electron evs) (map Muon evs) (map Jet evs)
    = Some s /\
    PackedSelection.all s ["4j2b"] = Some selection /\
    ak.mask_events (map Jet evs) selection = Some region_jets /\
    Forall (fun ev => 4 <= List.length ev /\
                      2 <= List.length
                             (filter (fun j => Qgtb (Jet.btagCSVV2 j) 0.5%Q)
                                ev) /\
                      exists t, In t (candidates ev)) region_jets /\
    calculate_m_reco_top region_jets = Some obs /\
    Forall2 (fun ev o => exists c, In c (candidates ev) /\
                                   o = Some (trijet_mass c))
      region_jets obs /\
    List.length obs = List.length region_jets /\
    List.length obs
    = List.length (ak.ones_like_times (ak.num region_jets) w) /\
    selection = map in_4j2b evs /\
    region_jets = map Jet (filter in_4j2b evs) /\
    List.length obs = List.length (filter in_4j2b evs) /\
    (forall ev,
       in_4j2b ev = true <->
       List.length (Electron ev) + List.length (Muon ev) = 1 /\
       4 <= List.length (Jet ev) /\
       2 <= List.length
              (filter (fun j => Qgtb (Jet.btagCSVV2 j) 0.5%Q) (Jet ev))) /\
    (forall ev, In ev evs -> in_4j2b ev = true ->
       In (Jet ev) region_jets /\
       exists a b c,
         In (a, b, c) (ak.combinations3 (Jet ev)) /\
         (0.5 < np_maximum (Jet.btagCSVV2 a)
                  (np_maximum (Jet.btagCSVV2 b) (Jet.btagCSVV2 c)))%Q /\
         In (Trijet.make (a, b, c)) (candidates (Jet ev))).
Proof.
  exists {| PackedSelection._names := region_names;
            PackedSelection._data := Some (map packed evs) |},
    (map in_4j2b evs), (map Jet (filter in_4j2b evs)).
  eexists.
  split; [apply region_selection_packed|].
  split; [now apply packed_lookup|].
  split; [apply mask_events_map|].
  split; [|split; [apply calculate_m_reco_top_events|]].
  - apply Forall_forall. intros jets Hin.
    apply in_map_iff in Hin as (ev & <- & Hev).
    apply filter_In in Hev as [_ Hsel].
    pose proof (in_4j2b_candidates ev Hsel) as Hc.
    unfold in_4j2b, atleast_4j, atleast_2b, n_btagged in Hsel.
    rewrite !andb_true_iff, !Nat.leb_le in Hsel.
    destruct Hsel as [[_ H4] H2]. repeat split; auto.
    destruct (candidates (Jet ev)) as [|t l]; [congruence|].
    exists t. now left.
  - unfold ak.ones_like_times, ak.num. rewrite !length_map.
    split; [|split; [reflexivity|split; [reflexivity|
      split; [reflexivity|split; [reflexivity|split; [reflexivity|split]]]]]].
    + rewrite map_map. apply Forall2_maps. intros ev Hev.
      apply filter_In in Hev as [_ Hsel].
      apply in_4j2b_candidates in Hsel.
      destruct (pick_spec Hsel) as (k & c & Hp & Hk & _).
      exists c. rewrite Hp. split; [|reflexivity].
      eapply nth_error_In; eauto.
    + intro ev. unfold in_4j2b, exactly_1l, atleast_4j, atleast_2b, n_btagged.
      rewrite !andb_true_iff, !Nat.leb_le, Nat.eqb_eq.
      change B_TAG_THRESHOLD with 0.5%Q. tauto.
    + intros ev Hev Hsel. split.
      * apply in_map. apply filter_In. now split.
      * pose proof (in_4j2b_candidates ev Hsel) as Hc.
        assert (Ht : exists t, In t (candidates (Jet ev))).
        { destruct (candidates (Jet ev)) as [|t l]; [congruence|].
          exists t. now left. }
        destruct Ht as (t & Ht). unfold candidates in Ht.
        apply filter_In in Ht as [Hin Hb].
        apply in_map_iff in Hin as ([[a b] c] & <- & Hin).
        exists a, b, c. split; [exact Hin|]. split.
        -- now apply Qgtb_true in Hb.
        -- apply filter_In. split; [|exact Hb].
           now apply in_map.
Qed.

End TrijetClaims.

(** C2 as it is worded fails: an event without surviving candidate still
    has its entry, the missing value; here on a batch of one event without
    jets and on one whose three jets are all below the b-tag threshold. *)
Lemma trijet_empty_event_counterexample :
  calculate_m_reco_top (V := additive_vectors) [[]] = Some [None] /\
  calculate_m_reco_top (V := additive_vectors)
    [[a_jet 50%Q 0.1%Q; a_jet 45%Q 0.2%Q; a_jet 40%Q 0.1%Q]] = Some [None] /\
  ~ no_entry_without_candidates (V := additive_vectors).
Proof.
  split; [reflexivity|]. split; [reflexivity|].
  intro H. specialize (H [[]] [None] eq_refl). discriminate H.
Qed.

(** ** Running the monad *)

Lemma bind_eq {A B} (m : M A) (k : A -> M B) (s s' : State) (x : A) :
  m s = Some (x, s') -> bind m k s = k x s'.
Proof. unfold bind. now intros ->. Qed.
Arguments bind_eq {A B m} k {s s' x} _.

Lemma bind_assoc {A B C} (m : M A) (f : A -> M B) (g : B -> M C) (s : State) :
  bind (bind m f) g s = bind m (fun x => bind (f x) g) s.
Proof. unfold bind. destruct (m s) as [[x s']|]; reflexivity. Qed.

Lemma lift_eq {A} (o : option A) (x : A) (s : State) :
  o = Some x -> lift o s = Some (x, s).
Proof. now intros ->. Qed.
Arguments lift_eq {A o x} s _.

Lemma nth_error_snoc {A} (l : list A) (x : A) :
  nth_error (l ++ [x]) (List.length l) = Some x.
Proof. rewrite nth_error_app2, Nat.sub_diag by lia. reflexivity. Qed.

Lemma update_nth_snoc {A} (l : list A) (x y : A) :
  update_nth (List.length l) y (l ++ [x]) = Some (l ++ [y]).
Proof. induction l as [|z l IH]; simpl; [reflexivity|]. now rewrite IH. Qed.

Section HeapSteps.
Variables (h : list Obj) (d : list (string * list Fill.t))
  (q : list Query.t) (events : nat) (e : NanoEvents).
Hypothesis Hev : nth_error h events = Some (ObjEvents e).

Let s := {| heap := h; hist_dict := d; cset_calls := q |}.

Lemma load_events_eq : load_events events s = Some (e, s).
Proof. unfold load_events, bind, load, lift; simpl. now rewrite Hev. Qed.

Lemma events_Electron_eq :
  events_Electron events s = Some (map Electron (rows e), s).
Proof. unfold events_Electron. now rewrite (bind_eq _ load_events_eq). Qed.

Lemma events_Muon_eq : events_Muon events s = Some (map Muon (rows e), s).
Proof. unfold events_Muon. now rewrite (bind_eq _ load_events_eq). Qed.

Lemma events_Jet_eq :
  events_Jet events s
  = Some (List.length h,
          {| heap := h ++ [ObjJets (map Jet (rows e))]; hist_dict := d;
             cset_calls := q |}).
Proof. unfold events_Jet. now rewrite (bind_eq _ load_events_eq). Qed.

Lemma events_getitem_eq (name : string) (c : Column) (o : Obj) :
  lookup name (attached e) = Some c ->
  events_getitem events name
    {| heap := h ++ [o]; hist_dict := d; cset_calls := q |}
  = Some (c, {| heap := h ++ [o]; hist_dict := d; cset_calls := q |}).
Proof.
  intro Hc. unfold events_getitem, load_events, load, bind, lift; simpl.
  assert (events < List.length h) by (apply nth_error_Some; congruence).
  rewrite nth_error_app1, Hev by lia. simpl. now rewrite Hc.
Qed.

End HeapSteps.

Lemma load_jets_snoc (h : list Obj) (d : list (string * list Fill.t))
  (q : list Query.t) (j : list (list Jet.t)) :
  load_jets (List.length h)
    {| heap := h ++ [ObjJets j]; hist_dict := d; cset_calls := q |}
  = Some (j, {| heap := h ++ [ObjJets j]; hist_dict := d; cset_calls := q |}).
Proof.
  unfold load_jets, load, bind, lift; simpl. now rewrite nth_error_snoc.
Qed.

Lemma jets_setitem_pt_snoc (h : list Obj) (d : list (string * list Fill.t))
  (q : list Query.t) (j j' : list (list Jet.t)) (pt : list (list Q)) :
  zip_events (ak.zip_with Jet.with_pt) j pt = Some j' ->
  jets_setitem_pt (List.length h) pt
    {| heap := h ++ [ObjJets j]; hist_dict := d; cset_calls := q |}
  = Some (tt, {| heap := h ++ [ObjJets j']; hist_dict := d;
                 cset_calls := q |}).
Proof.
  intro Hz. unfold jets_setitem_pt.
  rewrite (bind_eq _ (load_jets_snoc h d q j)).
  rewrite (bind_eq _ (lift_eq _ Hz)).
  unfold store; simpl. now rewrite update_nth_snoc.
Qed.

(** ** The objects of a pass *)

Lemma zip_events_length {A B C} (f : A -> B -> option C) (a : list A)
  (b : list B) (r : list C) :
  zip_events f a b = Some r ->
  List.length b = List.length a /\ List.length r = List.length a.
Proof.
  revert b r; induction a as [|x a IH]; intros [|y b] r H; simpl in H;
    try discriminate.
  - inversion H; auto.
  - destruct (f x y); [|discriminate].
    destruct (zip_events f a b) as [r'|] eqn:E; [|discriminate].
    inversion H; subst; simpl. destruct (IH _ _ E); split; congruence.
Qed.

Lemma shifted_jets_length (e : NanoEvents) (syst_var : string)
  (j : list (list Jet.t)) :
  shifted_jets e syst_var = Some j -> List.length j = List.length (rows e).
Proof.
  unfold shifted_jets. destruct (str_in syst_var jet_kinematic_systs).
  - destruct (lookup syst_var (attached e)); [|discriminate].
    destruct (mul_column _ _); [|discriminate].
    intro H. apply zip_events_length in H as [_ H].
    now rewrite H, length_map.
  - intro H; inversion H. apply length_map.
Qed.

Lemma combine_fst {A B} (a : list A) (b : list B) :
  List.length b = List.length a -> map fst (combine a b) = a.
Proof.
  revert b; induction a as [|x a IH]; intros [|y b] H; simpl in *;
    try discriminate; [reflexivity|]. f_equal. apply IH. lia.
Qed.

Lemma combine_snd {A B} (a : list A) (b : list B) :
  List.length b = List.length a -> map snd (combine a b) = b.
Proof.
  revert b; induction a as [|x a IH]; intros [|y b] H; simpl in *;
    try discriminate; [reflexivity|]. f_equal. apply IH. lia.
Qed.

Lemma object_selection_events (rows : list Event) (jets : list (list Jet.t)) :
  List.length jets = List.length rows ->
  object_selection (map Electron rows) (map Muon rows) jets
  = (map Electron (selected_events rows jets),
     map Muon (selected_events rows jets),
     map Jet (selected_events rows jets)).
Proof.
  intro H. unfold object_selection, ak.mask_objects, selected_events.
  rewrite !map_map; cbn [Electron Muon Jet].
  rewrite <- (combine_fst rows jets H) at 1 2.
  rewrite <- (combine_snd rows jets H) at 3.
  now rewrite !map_map.
Qed.

Lemma select_eq (h : list Obj) (d : list (string * list Fill.t))
  (q : list Query.t) (events : nat) (e : NanoEvents) (syst_var : string)
  (j : list (list Jet.t)) :
  nth_error h events = Some (ObjEvents e) ->
  shifted_jets e syst_var = Some j ->
  select events syst_var {| heap := h; hist_dict := d; cset_calls := q |}
  = Some (object_selection (map Electron (rows e)) (map Muon (rows e)) j,
          packed_selection (selected_events (rows e) j),
          {| heap := h ++ [ObjJets j]; hist_dict := d; cset_calls := q |}).
Proof.
  intros Hev Hj. pose proof (shifted_jets_length _ _ Hj) as Hlen.
  unfold select.
  rewrite (bind_eq _ (@events_Electron_eq h d q events e Hev)).
  rewrite (bind_eq _ (@events_Muon_eq h d q events e Hev)).
  rewrite (bind_eq _ (@events_Jet_eq h d q events e Hev)).
  unfold shifted_jets in Hj.
  destruct (str_in syst_var jet_kinematic_systs).
  - destruct (lookup syst_var (attached e)) as [shift|] eqn:Es;
      [|discriminate].
    destruct (mul_column (jets_pt (map Jet (rows e))) shift) as [pt|] eqn:Ep;
      [|discriminate].
    erewrite bind_eq.
    2:{ rewrite (bind_eq _ (@load_jets_snoc h d q _)).
        rewrite (bind_eq _ (@events_getitem_eq h d q events e Hev _ _ _ Es)).
        rewrite (bind_eq _ (lift_eq _ Ep)).
        apply jets_setitem_pt_snoc. exact Hj. }
    rewrite (bind_eq _ (@load_jets_snoc h d q _)).
    rewrite (object_selection_events _ _ Hlen).
    unfold bind, lift. rewrite region_selection_packed. reflexivity.
  - inversion Hj; subst j.
    erewrite bind_eq by reflexivity.
    rewrite (bind_eq _ (@load_jets_snoc h d q _)).
    rewrite (object_selection_events _ _ Hlen).
    unfold bind, lift. rewrite region_selection_packed. reflexivity.
Qed.

(** ** The fills of a pass *)

Lemma column_events (i : nat) (evs : list Event) :
  Forall (fun ev => i < List.length (Jet ev)) evs ->
  ak.column (jets_pt (map Jet evs)) i = Some (map (nth_jet_pt i) evs).
Proof.
  unfold jets_pt. rewrite map_map.
  induction 1 as [|ev evs Hi _ IH]; simpl; [reflexivity|].
  rewrite IH. unfold nth_jet_pt.
  destruct (nth_error (map Jet.pt (Jet ev)) i) as [x|] eqn:E.
  - now rewrite (nth_error_nth _ _ _ E).
  - apply nth_error_None in E. rewrite length_map in E. lia.
Qed.

Lemma region_events_cases (region : string) (evs : list Event) :
  region = "4j1b" \/ region = "4j2b" ->
  exists f, mask_of region = Some f /\ region_events region evs = filter f evs
            /\ forall ev, f ev = true -> 4 <= List.length (Jet ev).
Proof.
  intros [-> | ->]; eexists; (split; [reflexivity|split; [reflexivity|]]).
  all: intros ev H; unfold in_4j1b, in_4j2b, atleast_4j in H.
  all: rewrite !andb_true_iff, Nat.leb_le in H; tauto.
Qed.

Section PassSteps.
Context {V : Vector4}.
Variable evaluate : string -> string -> Q -> Q.

Lemma region_observable_length (region : string) (evs : list Event) :
  List.length (region_observable region evs)
  = List.length (region_events region evs).
Proof.
  unfold region_observable. destruct (String.eqb region "4j1b");
    apply length_map.
Qed.

Lemma observable_eq (region : string) (evs : list Event) (s : State) :
  region = "4j1b" \/ region = "4j2b" ->
  (if String.eqb region "4j1b" then
     ret (map Some (ak.sum (jets_pt (map Jet (region_events region evs)))))
   else if String.eqb region "4j2b" then
     lift (calculate_m_reco_top (map Jet (region_events region evs)))
   else raise) s
  = Some (region_observable region evs, s).
Proof.
  intros [-> | ->]; unfold region_observable; simpl String.eqb; cbv iota.
  - unfold ret, ak.sum, jets_pt. now rewrite !map_map.
  - rewrite calculate_m_reco_top_events. unfold lift, m_reco_top.
    now rewrite map_map.
Qed.

Lemma extend_keys (region : string) (f : list Fill.t)
  (d : list (string * list Fill.t)) :
  map fst (extend region f d) = map fst d.
Proof.
  unfold extend. rewrite map_map. apply map_ext. intros [k x]; simpl.
  now destruct (String.eqb k region).
Qed.

Lemma extend_extend (region : string) (f g : list Fill.t)
  (d : list (string * list Fill.t)) :
  extend region g (extend region f d) = extend region (f ++ g) d.
Proof.
  unfold extend. rewrite map_map. apply map_ext. intros [k x]; simpl.
  destruct (String.eqb k region) eqn:E; simpl; rewrite E; auto.
  now rewrite app_assoc.
Qed.

Lemma extend_nil (region : string) (d : list (string * list Fill.t)) :
  extend region [] d = d.
Proof.
  unfold extend. rewrite <- (map_id d) at 2. apply map_ext.
  intros [k x]; simpl. destruct (String.eqb k region); auto.
  now rewrite app_nil_r.
Qed.

Lemma hist_fill_eq (h : list Obj) (d : list (string * list Fill.t))
  (q : list Query.t) (region : string) (f : Fill.t) :
  two_regions d ->
  region = "4j1b" \/ region = "4j2b" ->
  List.length (Fill.observable f) = List.length (Fill.weight f) ->
  hist_fill region f {| heap := h; hist_dict := d; cset_calls := q |}
  = Some (tt, {| heap := h; hist_dict := extend region [f] d;
                 cset_calls := q |}).
Proof.
  intros Hd Hr Hlen. unfold hist_fill; simpl heap; simpl hist_dict.
  rewrite Hlen, Nat.eqb_refl.
  destruct d as [|[k1 x1] [|[k2 x2] [|]]]; try discriminate.
  inversion Hd; subst.
  destruct Hr as [-> | ->]; reflexivity.
Qed.

(** The correction weights of one direction. *)
Lemma wgt_variation_eq (h : list Obj) (d : list (string * list Fill.t))
  (q : list Query.t) (syst_var family direction : string) (i : nat)
  (revs : list Event) :
  weight_source syst_var = Some (family, i) ->
  Forall (fun ev => i < List.length (Jet ev)) revs ->
  (if String.eqb syst_var "scale_var" then
     x <- lift (ak.column (jets_pt (map Jet revs)) 0) ;;
     cset_evaluate evaluate "scale_var" direction x
   else if String.prefix "btag_var" syst_var then
     i_jet <- lift (int (rsplit_last "_"%char syst_var)) ;;
     x <- lift (ak.column (jets_pt (map Jet revs)) i_jet) ;;
     cset_evaluate evaluate "btag_var" direction x
   else raise) {| heap := h; hist_dict := d; cset_calls := q |}
  = Some (map (fun ev => evaluate family direction (nth_jet_pt i ev)) revs,
          {| heap := h; hist_dict := d;
             cset_calls :=
               q ++ [{| Query.family := family;
                        Query.direction := direction;
                        Query.input := map (nth_jet_pt i) revs |}] |}).
Proof.
  unfold weight_source. intros Hws Hi.
  destruct (String.eqb syst_var "scale_var").
  - inversion Hws; subst.
    rewrite (bind_eq _ (lift_eq _ (column_events Hi))).
    unfold cset_evaluate; simpl. now rewrite map_map.
  - destruct (String.prefix "btag_var" syst_var); [|discriminate].
    destruct (int (rsplit_last "_"%char syst_var)) as [k|] eqn:Ek;
      [|discriminate].
    inversion Hws; subst.
    rewrite (bind_eq _ (lift_eq _ eq_refl)).
    rewrite (bind_eq _ (lift_eq _ (column_events Hi))).
    unfold cset_evaluate; simpl. now rewrite map_map.
Qed.

Lemma fill_region_eq (h : list Obj) (d : list (string * list Fill.t))
  (q : list Query.t) (process variation : string) (w : Q)
  (syst_var region : string) (evs : list Event) :
  two_regions d ->
  region = "4j1b" \/ region = "4j2b" ->
  (str_in syst_var (event_systs process) = true ->
   exists family i, weight_source syst_var = Some (family, i) /\ i < 4) ->
  fill_region evaluate process variation w syst_var (packed_selection evs)
    (map Jet evs) region {| heap := h; hist_dict := d; cset_calls := q |}
  = Some (tt,
          {| heap := h;
             hist_dict :=
               extend region
                 (pass_fills evaluate process variation w syst_var region evs)
                 d;
             cset_calls := q ++ pass_queries process syst_var region evs |}).
Proof.
  intros Hd Hr Hws.
  destruct (@region_events_cases region evs Hr) as (f & Hf & Hre & H4).
  unfold fill_region.
  rewrite (bind_eq _ (lift_eq _ (@packed_lookup evs region f Hf))).
  rewrite (bind_eq _ (lift_eq _ (@mask_events_map _ _ Jet f evs))).
  rewrite <- Hre.
  rewrite (bind_eq _ (@observable_eq region evs _ Hr)).
  assert (Hw : ak.ones_like_times
                 (ak.num (map Jet (region_events region evs))) w
               = map (fun _ => (1 * w)%Q) (region_events region evs))
    by (unfold ak.ones_like_times, ak.num; now rewrite !map_map).
  rewrite Hw.
  unfold pass_fills, pass_queries.
  destruct (str_in syst_var (event_systs process)).
  - destruct Hws as (family & i & Hsrc & Hi); [reflexivity|].
    rewrite Hsrc.
    assert (Hcol : Forall (fun ev => i < List.length (Jet ev))
                     (region_events region evs)).
    { rewrite Hre. apply Forall_forall. intros ev Hev.
      apply filter_In in Hev as [_ Hev]. apply H4 in Hev. lia. }
    assert (Hlen : forall direction,
              List.length (region_observable region evs)
              = List.length
                  (map (fun x => (1 * w * evaluate family direction
                                            (nth_jet_pt i x))%Q)
                     (region_events region evs)))
      by (intro; now rewrite region_observable_length, length_map).
    cbn [for_each]. rewrite !bind_assoc.
    rewrite (bind_eq _ (@wgt_variation_eq h d q syst_var family "up" i _
                          Hsrc Hcol)).
    rewrite !bind_assoc.
    rewrite (bind_eq _ (lift_eq _ (@zip_with_map _ _ _ _ _ _ _ _))).
    erewrite bind_eq
      by (apply hist_fill_eq; [exact Hd|exact Hr|apply (Hlen "up")]).
    rewrite !bind_assoc.
    rewrite (bind_eq _ (@wgt_variation_eq h _ _ syst_var family "down" i _
                          Hsrc Hcol)).
    rewrite !bind_assoc.
    rewrite (bind_eq _ (lift_eq _ (@zip_with_map _ _ _ _ _ _ _ _))).
    erewrite bind_eq
      by (apply hist_fill_eq;
          [unfold two_regions; now rewrite extend_keys|exact Hr
          |apply (Hlen "down")]).
    unfold ret. rewrite extend_extend, <- app_assoc. reflexivity.
  - rewrite app_nil_r. apply hist_fill_eq; auto.
    simpl. now rewrite region_observable_length, length_map.
Qed.

End PassSteps.

(** ** The weight-type variations name a family and a jet position *)

Lemma str_in_cases (x : string) (l : list string) :
  str_in x l = true -> In x l.
Proof.
  unfold str_in. rewrite existsb_exists. intros (y & Hy & E).
  apply String.eqb_eq in E. now subst.
Qed.

Lemma weight_source_known (process syst_var : string) :
  str_in syst_var (event_systs process) = true ->
  exists family i, weight_source syst_var = Some (family, i) /\ i < 4.
Proof.
  intro H. apply str_in_cases in H. unfold event_systs in H.
  destruct (String.eqb process "wjets"); simpl in H.
  all: repeat match goal with
       | H : _ \/ _ |- _ => destruct H as [<-|H]
       | H : False |- _ => destruct H
       end.
  all: cbv; do 2 eexists; split; [reflexivity|lia].
Qed.

Lemma extend_comm (r1 r2 : string) (a b : list Fill.t)
  (d : list (string * list Fill.t)) :
  r1 <> r2 ->
  extend r1 a (extend r2 b d) = extend r2 b (extend r1 a d).
Proof.
  intro Hne. unfold extend. rewrite !map_map. apply map_ext.
  intros [k x]; simpl.
  destruct (String.eqb_spec k r1) as [E1|E1],
    (String.eqb_spec k r2) as [E2|E2]; simpl.
  - congruence.
  - destruct (String.eqb_spec k r1); [|contradiction].
    destruct (String.eqb_spec k r2); [contradiction|]. reflexivity.
  - destruct (String.eqb_spec k r1); [contradiction|].
    destruct (String.eqb_spec k r2); [|contradiction]. reflexivity.
  - destruct (String.eqb_spec k r1); [contradiction|].
    destruct (String.eqb_spec k r2); [contradiction|]. reflexivity.
Qed.

Section PassRuns.
Context {V : Vector4}.
Variable evaluate : string -> string -> Q -> Q.

Lemma select_events_eq (h : list Obj) (d : list (string * list Fill.t))
  (q : list Query.t) (events : nat) (e : NanoEvents) (syst_var : string)
  (j : list (list Jet.t)) :
  nth_error h events = Some (ObjEvents e) ->
  shifted_jets e syst_var = Some j ->
  select events syst_var {| heap := h; hist_dict := d; cset_calls := q |}
  = Some (map Electron (selected_events (rows e) j),
          map Muon (selected_events (rows e) j),
          map Jet (selected_events (rows e) j),
          packed_selection (selected_events (rows e) j),
          {| heap := h ++ [ObjJets j]; hist_dict := d; cset_calls := q |}).
Proof.
  intros Hev Hj. rewrite (@select_eq h d q events e syst_var j Hev Hj).
  now rewrite (@object_selection_events (rows e) j
                 (@shifted_jets_length e syst_var j Hj)).
Qed.

Lemma variation_pass_eq (h : list Obj) (d : list (string * list Fill.t))
  (q : list Query.t) (events : nat) (e : NanoEvents)
  (process variation : string) (w : Q) (syst_var : string)
  (j : list (list Jet.t)) :
  nth_error h events = Some (ObjEvents e) ->
  shifted_jets e syst_var = Some j ->
  two_regions d ->
  variation_pass evaluate events process variation w syst_var
    {| heap := h; hist_dict := d; cset_calls := q |}
  = Some (tt,
          {| heap := h ++ [ObjJets j];
             hist_dict :=
               extend "4j2b"
                 (pass_fills evaluate process variation w syst_var "4j2b"
                    (selected_events (rows e) j))
                 (extend "4j1b"
                    (pass_fills evaluate process variation w syst_var "4j1b"
                       (selected_events (rows e) j)) d);
             cset_calls :=
               q ++ pass_queries process syst_var "4j1b"
                      (selected_events (rows e) j)
                 ++ pass_queries process syst_var "4j2b"
                      (selected_events (rows e) j) |}).
Proof.
  intros Hev Hj Hd. unfold variation_pass.
  rewrite (bind_eq _ (@select_events_eq h d q events e syst_var j Hev Hj)).
  unfold get_hist_dict, bind at 1; simpl hist_dict.
  rewrite Hd. cbn [for_each].
  erewrite bind_eq
    by (apply fill_region_eq;
        [exact Hd|now left|apply weight_source_known]).
  erewrite bind_eq
    by (apply fill_region_eq;
        [unfold two_regions; now rewrite extend_keys|now right
        |apply weight_source_known]).
  unfold ret. now rewrite <- app_assoc.
Qed.

Lemma for_each_passes (svs : list string) (h : list Obj)
  (d : list (string * list Fill.t)) (q : list Query.t) (events : nat)
  (e : NanoEvents) (process variation : string) (w : Q) :
  nth_error h events = Some (ObjEvents e) ->
  Forall (fun sv => shifted_jets e sv <> None) svs ->
  two_regions d ->
  for_each svs (variation_pass evaluate events process variation w)
    {| heap := h; hist_dict := d; cset_calls := q |}
  = Some (tt,
          {| heap := h ++ map (fun sv => ObjJets (jets_of e sv)) svs;
             hist_dict :=
               extend "4j2b"
                 (flat_map (fun sv =>
                              pass_fills evaluate process variation w sv
                                "4j2b" (pass_events e sv)) svs)
                 (extend "4j1b"
                    (flat_map (fun sv =>
                                 pass_fills evaluate process variation w sv
                                   "4j1b" (pass_events e sv)) svs) d);
             cset_calls :=
               q ++ flat_map (fun sv =>
                                pass_queries process sv "4j1b"
                                  (pass_events e sv)
                                ++ pass_queries process sv "4j2b"
                                     (pass_events e sv)) svs |}).
Proof.
  revert h d q.
  induction svs as [|sv svs IH]; intros h d q Hev Hsh Hd.
  - simpl. unfold ret. now rewrite !extend_nil, !app_nil_r.
  - inversion Hsh as [|? ? Hsv Hrest]; subst.
    destruct (shifted_jets e sv) as [j|] eqn:Ej; [|congruence].
    cbn [for_each].
    rewrite (bind_eq _ (@variation_pass_eq h d q events e process variation
                          w sv j Hev Ej Hd)).
    rewrite IH; auto.
    + assert (Hjo : jets_of e sv = j) by (unfold jets_of; now rewrite Ej).
      assert (Hpe : pass_events e sv = selected_events (rows e) j)
        by (unfold pass_events; now rewrite Hjo).
      cbn [map flat_map]. rewrite Hjo, Hpe.
      rewrite (@extend_comm "4j1b" "4j2b") by discriminate.
      rewrite !extend_extend, <- !app_assoc. reflexivity.
    + assert (events < List.length h) by (apply nth_error_Some; congruence).
      now rewrite nth_error_app1 by lia.
    + unfold two_regions. now rewrite !extend_keys.
Qed.

End PassRuns.

(** ** The jets of the kinematic shifts *)

Lemma zip_with_repeat {A B C} (f : A -> B -> C) (a : list A) (c : B) :
  ak.zip_with f a (repeat c (List.length a)) = Some (map (fun x => f x c) a).
Proof. induction a as [|x a IH]; simpl; [reflexivity|]. now rewrite IH. Qed.

Lemma zip_with_total {A B C} (f : A -> B -> C) (a : list A) (b : list B) :
  List.length a = List.length b ->
  exists r, ak.zip_with f a b = Some r /\ List.length r = List.length a.
Proof.
  revert b; induction a as [|x a IH]; intros [|y b] H; simpl in *;
    try discriminate.
  - eexists; split; reflexivity.
  - destruct (IH b) as (r & -> & Hr); [lia|].
    eexists; split; [reflexivity|]. simpl; congruence.
Qed.

Lemma zip_events_total {A B C} (f : A -> B -> C) (a : list (list A))
  (b : list (list B)) :
  shape a = shape b ->
  exists r, zip_events (ak.zip_with f) a b = Some r /\ shape r = shape a.
Proof.
  revert b; induction a as [|x a IH]; intros [|y b] H; simpl in *;
    try discriminate.
  - eexists; split; reflexivity.
  - inversion H as [[Hxy Hab]].
    destruct (zip_with_total f x y Hxy) as (z & -> & Hz).
    destruct (IH b Hab) as (r & -> & Hr).
    eexists; split; [reflexivity|]. simpl; congruence.
Qed.

Lemma zip_events_map {X A B C} (f : A -> B -> option C) (g : X -> A)
  (h : X -> B) (k : X -> C) (xs : list X) :
  (forall x, f (g x) (h x) = Some (k x)) ->
  zip_events f (map g xs) (map h xs) = Some (map k xs).
Proof.
  intro H. induction xs as [|x xs IH]; simpl; [reflexivity|].
  now rewrite H, IH.
Qed.

(** [jets["pt"] = value] sets the momenta and nothing else. *)
Lemma with_pt_event (ev ev' : list Jet.t) (pt : list Q) :
  ak.zip_with Jet.with_pt ev pt = Some ev' ->
  map Jet.pt ev' = pt /\
  Forall2 (fun j j' => j' = Jet.with_pt j (Jet.pt j')) ev ev'.
Proof.
  revert pt ev'; induction ev as [|j ev IH]; intros [|p pt] ev' H;
    simpl in H; try discriminate.
  - inversion H; subst. split; constructor.
  - destruct (ak.zip_with Jet.with_pt ev pt) as [r|] eqn:E; [|discriminate].
    inversion H; subst. destruct (IH _ _ E) as [Hp Hf].
    split; simpl; [now rewrite Hp|]. constructor; auto.
Qed.

Lemma with_pt_events (j j' : list (list Jet.t)) (pt : list (list Q)) :
  zip_events (ak.zip_with Jet.with_pt) j pt = Some j' ->
  jets_pt j' = pt /\
  Forall2 (Forall2 (fun a a' => a' = Jet.with_pt a (Jet.pt a'))) j j'.
Proof.
  revert pt j'; induction j as [|ev j IH]; intros [|p pt] j' H;
    simpl in H; try discriminate.
  - inversion H; subst. split; constructor.
  - destruct (ak.zip_with Jet.with_pt ev p) as [ev'|] eqn:E1; [|discriminate].
    destruct (zip_events _ j pt) as [r|] eqn:E2; [|discriminate].
    inversion H; subst. destruct (IH _ _ E2) as [Hp Hf].
    destruct (with_pt_event _ _ E1) as [Hp1 Hf1].
    split; simpl; [now rewrite Hp, Hp1|]. constructor; auto.
Qed.

(** ** A shifted pass multiplies the nominal momenta *)

Lemma with_pt_scaled (ev ev' : list Jet.t) (x : Q) :
  ak.zip_with Jet.with_pt ev (map (fun p => (p * x)%Q) (map Jet.pt ev))
  = Some ev' ->
  ev' = map (fun j => Jet.with_pt j (Jet.pt j * x)%Q) ev.
Proof.
  revert ev'; induction ev as [|j ev IH]; intros ev' H; simpl in H.
  - now inversion H.
  - destruct (ak.zip_with Jet.with_pt ev
                (map (fun p => (p * x)%Q) (map Jet.pt ev))) as [r|] eqn:E;
      [|discriminate].
    inversion H; subst. simpl. f_equal. now apply IH.
Qed.

Lemma with_pt_products (ev ev' : list Jet.t) (xs ps : list Q) :
  ak.zip_with Qmult (map Jet.pt ev) xs = Some ps ->
  ak.zip_with Jet.with_pt ev ps = Some ev' ->
  List.length xs = List.length ev /\
  ev' = map (fun jx => Jet.with_pt (fst jx) (Jet.pt (fst jx) * snd jx)%Q)
          (combine ev xs).
Proof.
  revert ev' xs ps; induction ev as [|j ev IH]; intros ev' [|x xs] ps H1 H2;
    simpl in H1; try discriminate.
  - inversion H1; subst. simpl in H2. inversion H2. now split.
  - destruct (ak.zip_with Qmult (map Jet.pt ev) xs) as [r|] eqn:E1;
      [|discriminate].
    inversion H1; subst. simpl in H2.
    destruct (ak.zip_with Jet.with_pt ev r) as [r'|] eqn:E2; [|discriminate].
    inversion H2; subst.
    destruct (IH _ _ _ E1 E2) as [Hl ->]. simpl. split; [now rewrite Hl|].
    reflexivity.
Qed.

Lemma shift_per_event (jets j : list (list Jet.t)) (c : list Q)
  (pt : list (list Q)) :
  ak.zip_with (fun ev x => map (fun p => (p * x)%Q) ev) (jets_pt jets) c
  = Some pt ->
  zip_events (ak.zip_with Jet.with_pt) jets pt = Some j ->
  List.length c = List.length jets /\ j = momentum_times (PerEvent c) jets.
Proof.
  revert j c pt; induction jets as [|ev jets IH]; intros j [|x c] pt H1 H2;
    simpl in H1; try discriminate.
  - inversion H1; subst. simpl in H2. inversion H2. now split.
  - fold (jets_pt jets) in H1.
    destruct (ak.zip_with (fun ev x => map (fun p => (p * x)%Q) ev)
                (jets_pt jets) c) as [r|] eqn:E1; [|discriminate].
    inversion H1; subst. simpl in H2.
    destruct (ak.zip_with Jet.with_pt ev
                (map (fun p => (p * x)%Q) (map Jet.pt ev))) as [ev'|] eqn:E2;
      [|discriminate].
    destruct (zip_events (ak.zip_with Jet.with_pt) jets r) as [r'|] eqn:E3;
      [|discriminate].
    inversion H2; subst.
    destruct (IH _ _ _ E1 E3) as [Hl ->].
    apply with_pt_scaled in E2 as ->.
    simpl. split; [now rewrite Hl|reflexivity].
Qed.

Lemma shift_per_object (jets j : list (list Jet.t)) (c pt : list (list Q)) :
  zip_events (ak.zip_with Qmult) (jets_pt jets) c = Some pt ->
  zip_events (ak.zip_with Jet.with_pt) jets pt = Some j ->
  shape c = shape jets /\ j = momentum_times (PerObject c) jets.
Proof.
  revert j c pt; induction jets as [|ev jets IH]; intros j [|xs c] pt H1 H2;
    simpl in H1; try discriminate.
  - inversion H1; subst. simpl in H2. inversion H2. now split.
  - fold (jets_pt jets) in H1.
    destruct (ak.zip_with Qmult (map Jet.pt ev) xs) as [ps|] eqn:E0;
      [|discriminate].
    destruct (zip_events (ak.zip_with Qmult) (jets_pt jets) c) as [r|] eqn:E1;
      [|discriminate].
    inversion H1; subst. simpl in H2.
    destruct (ak.zip_with Jet.with_pt ev ps) as [ev'|] eqn:E2;
      [|discriminate].
    destruct (zip_events (ak.zip_with Jet.with_pt) jets r) as [r'|] eqn:E3;
      [|discriminate].
    inversion H2; subst.
    destruct (IH _ _ _ E1 E3) as [Hs ->].
    destruct (with_pt_products _ _ E0 E2) as [Hl ->].
    unfold shape in *. simpl. split; [now rewrite Hl, Hs|reflexivity].
Qed.

(** The jets of a kinematic pass are the nominal ones with every momentum
    multiplied by the multiplier the column of the shift holds for it. *)
Lemma shifted_jets_product (e : NanoEvents) (sv : string)
  (j : list (list Jet.t)) :
  str_in sv jet_kinematic_systs = true ->
  shifted_jets e sv = Some j ->
  exists shift,
    lookup sv (attached e) = Some shift /\
    multipliers_fit shift (map Jet (rows e)) /\
    j = momentum_times shift (map Jet (rows e)).
Proof.
  intros Hin H. unfold shifted_jets in H. rewrite Hin in H.
  destruct (lookup sv (attached e)) as [shift|]; [|discriminate].
  destruct (mul_column (jets_pt (map Jet (rows e))) shift) as [pt|] eqn:Ep;
    [|discriminate].
  exists shift. split; [reflexivity|].
  destruct shift as [c|c]; simpl in Ep.
  - now apply shift_per_event with pt.
  - now apply shift_per_object with pt.
Qed.

Lemma shifted_jets_nominal (e : NanoEvents) (syst_var : string) :
  str_in syst_var jet_kinematic_systs = false ->
  shifted_jets e syst_var = Some (map Jet (rows e)).
Proof. unfold shifted_jets. now intros ->. Qed.

Lemma shifted_jets_scale (rand_gauss : list (list Q) -> list (list Q))
  (e : NanoEvents) :
  shifted_jets (with_shifts rand_gauss e) "pt_scale_up"
  = Some (map (fun ev =>
                 map (fun j => Jet.with_pt j (Jet.pt j * 1.03)%Q) (Jet ev))
            (rows e)).
Proof.
  unfold shifted_jets, with_shifts; simpl.
  unfold jets_pt. rewrite <- (length_map (fun ev => map Jet.pt (Jet ev))).
  rewrite map_map, zip_with_repeat. rewrite map_map.
  apply zip_events_map. intro ev.
  rewrite <- (map_id (Jet ev)) at 1. rewrite map_map.
  now rewrite zip_with_map.
Qed.

Lemma shifted_jets_res (rand_gauss : list (list Q) -> list (list Q))
  (e : NanoEvents) :
  shape (rand_gauss (jets_pt (map Jet (rows e)))) = shape (map Jet (rows e)) ->
  exists pt j,
    zip_events (ak.zip_with Qmult) (jets_pt (map Jet (rows e)))
      (rand_gauss (jets_pt (map Jet (rows e)))) = Some pt /\
    shifted_jets (with_shifts rand_gauss e) "pt_res_up" = Some j /\
    jets_pt j = pt /\
    Forall2 (Forall2 (fun a a' => a' = Jet.with_pt a (Jet.pt a')))
      (map Jet (rows e)) j.
Proof.
  intro Hsh. unfold shifted_jets, with_shifts; simpl.
  assert (Hpts : shape (jets_pt (map Jet (rows e))) = shape (map Jet (rows e))).
  { unfold shape, jets_pt. rewrite !map_map. apply map_ext. intro ev.
    apply length_map. }
  destruct (zip_events_total Qmult (jets_pt (map Jet (rows e)))
              (rand_gauss (jets_pt (map Jet (rows e)))))
    as (pt & Hpt & Hs); [congruence|].
  destruct (zip_events_total Jet.with_pt (map Jet (rows e)) pt)
    as (j & Hj & _); [congruence|].
  rewrite Hpt, Hj. exists pt, j. repeat split; auto.
  all: now apply with_pt_events in Hj.
Qed.

Lemma shifted_jets_defined (rand_gauss : list (list Q) -> list (list Q))
  (e : NanoEvents) (syst_var : string) :
  shape (rand_gauss (jets_pt (map Jet (rows e)))) = shape (map Jet (rows e)) ->
  shifted_jets (with_shifts rand_gauss e) syst_var <> None.
Proof.
  intro Hsh.
  destruct (str_in syst_var jet_kinematic_systs) eqn:E.
  - apply str_in_cases in E as [<-|[<-|[]]].
    + now rewrite shifted_jets_scale.
    + destruct (shifted_jets_res _ _ Hsh) as (pt & j & _ & -> & _).
      discriminate.
  - now rewrite (shifted_jets_nominal _ _ E).
Qed.

(** ** One chunk *)

Lemma events_setitem_0 (e : NanoEvents) (d : list (string * list Fill.t))
  (q : list Query.t) (name : string) (c : Column) :
  column_length c = List.length (rows e) ->
  events_setitem 0 name c
    {| heap := [ObjEvents e]; hist_dict := d; cset_calls := q |}
  = Some (tt,
          {| heap := [ObjEvents {| rows := rows e;
                                   attached := (name, c) :: attached e;
                                   metadata := metadata e |}];
             hist_dict := d; cset_calls := q |}).
Proof.
  intro Hc. unfold events_setitem.
  rewrite (bind_eq _ (@load_events_eq [ObjEvents e] d q 0 e eq_refl)).
  now rewrite Hc, Nat.eqb_refl.
Qed.

Section RunProperties.
Context {V : Vector4}.
Variable rand_gauss : list (list Q) -> list (list Q).
Variable evaluate : string -> string -> Q -> Q.

Lemma run_eq (e : NanoEvents) (w : Q) :
  chunk_ok rand_gauss e w ->
  run rand_gauss evaluate e
  = Some (Metadata.dataset (metadata e),
          [("4j1b", chunk_fills rand_gauss evaluate e w "4j1b");
           ("4j2b", chunk_fills rand_gauss evaluate e w "4j2b")],
          chunk_state rand_gauss evaluate e w).
Proof.
  intros [Hw Hsh]. unfold run, process.
  rewrite (@bind_eq _ _ new_hist_dict _ _ _ tt eq_refl). simpl hist_dict.
  rewrite (bind_eq _ (@load_events_eq [ObjEvents e] _ [] 0 e eq_refl)).
  rewrite (bind_eq _ (lift_eq _ Hw)).
  erewrite bind_eq by (apply events_setitem_0; apply repeat_length).
  assert (Hlen : column_length
                   (PerObject (rand_gauss (jets_pt (map Jet (rows e)))))
                 = List.length (rows e)).
  { simpl. apply (f_equal (@List.length nat)) in Hsh.
    unfold shape in Hsh. now rewrite !length_map in Hsh. }
  erewrite bind_eq by (apply events_setitem_0; exact Hlen).
  simpl rows; simpl attached; simpl metadata.
  fold (with_shifts rand_gauss e).
  erewrite bind_eq.
  2:{ apply (@for_each_passes V evaluate _ [ObjEvents (with_shifts rand_gauss e)]
               _ _ 0 (with_shifts rand_gauss e)).
      - reflexivity.
      - apply Forall_forall. intros sv _. now apply shifted_jets_defined.
      - reflexivity. }
  reflexivity.
Qed.

End RunProperties.

(** ** The claims on the variation driver *)

Section DriverClaims.
Context {V : Vector4}.
Variable rand_gauss : list (list Q) -> list (list Q).
Variable evaluate : string -> string -> Q -> Q.

(** C1. The candidate list always holds "nominal".  With the baseline
    "nominal" it also holds the two kinematic shifts and the four b-tag
    variations, and "scale_var" for the process "wjets" only; a "ttbar" chunk
    then fills each region 1 + 2 + 4 * 2 = 11 times.  With another baseline
    the list is ["nominal"] and each region is filled once. *)
Theorem candidate_variations_and_fill_counts (e : NanoEvents) (w : Q)
  (Hok : chunk_ok rand_gauss e w) :
  (forall process variation,
      In "nominal" (syst_variations process variation)) /\
  (forall process,
      syst_variations process "nominal"
      = ["nominal"; "pt_scale_up"; "pt_res_up";
         "btag_var_0"; "btag_var_1"; "btag_var_2"; "btag_var_3"]
        ++ (if String.eqb process "wjets" then ["scale_var"] else [])) /\
  (forall process variation,
      variation <> "nominal" ->
      syst_variations process variation = ["nominal"]) /\
  exists h1 h2 s,
    run rand_gauss evaluate e
    = Some (Metadata.dataset (metadata e), [("4j1b", h1); ("4j2b", h2)], s) /\
    (Metadata.variation (metadata e) = "nominal" ->
     Metadata.process (metadata e) = "ttbar" ->
     List.length h1 = 11 /\ List.length h2 = 11 /\
     map Fill.variation h1
     = ["nominal"; "pt_scale_up"; "pt_res_up";
        "btag_var_0_up"; "btag_var_0_down"; "btag_var_1_up";
        "btag_var_1_down"; "btag_var_2_up"; "btag_var_2_down";
        "btag_var_3_up"; "btag_var_3_down"] /\
     map Fill.variation h2 = map Fill.variation h1) /\
    (Metadata.variation (metadata e) <> "nominal" ->
     List.length h1 = 1 /\ List.length h2 = 1 /\
     map Fill.variation h1 = [Metadata.variation (metadata e)] /\
     map Fill.variation h2 = [Metadata.variation (metadata e)]).
Proof.
  split; [|split; [|split]].
  - intros process variation. unfold syst_variations.
    destruct (String.eqb variation "nominal"); simpl; auto.
  - intro process. unfold syst_variations, event_systs; simpl.
    now destruct (String.eqb process "wjets").
  - intros process variation Hv. unfold syst_variations.
    apply String.eqb_neq in Hv. now rewrite Hv.
  - do 3 eexists. split; [apply (run_eq evaluate Hok)|]. split.
    + intros Hv Hp. unfold chunk_fills, chunk_variations.
      rewrite Hv, Hp. repeat split; reflexivity.
    + intro Hv. unfold chunk_fills, chunk_variations, syst_variations.
      apply String.eqb_neq in Hv. rewrite Hv. cbn [flat_map app].
      unfold pass_fills, event_systs, plain_fill.
      destruct (String.eqb (Metadata.process (metadata e)) "wjets");
        simpl; rewrite Hv; simpl; auto.
Qed.


Lemma nth_error_grow {A} (l l' : list A) (a : nat) (x : A) :
  nth_error l a = Some x -> nth_error (l ++ l') a = Some x.
Proof.
  intro H. assert (a < List.length l) by (apply nth_error_Some; congruence).
  now rewrite nth_error_app1 by lia.
Qed.

(** C4. The pass of a kinematic shift works on a jets object of its own:
    the nominal jets with every momentum replaced by the product of the
    nominal momentum and the multiplier the column of the shift holds for
    it, the other fields being the nominal ones.  In a chunk the column of
    "pt_scale_up" holds 1.03 for every event and the one of "pt_res_up" the
    drawn number of every jet.  The batch object and every other object of
    the heap are left as they were, so that after any passes a pass selects
    what it would have selected before them. *)
Theorem kinematic_shift_leaves_batch_untouched (h : list Obj)
  (d : list (string * list Fill.t)) (q : list Query.t) (events : nat)
  (e : NanoEvents) (process variation : string) (w : Q)
  (svs : list string) (e0 : NanoEvents) (w0 : Q)
  (Hev : nth_error h events = Some (ObjEvents e))
  (Hsvs : Forall (fun sv => shifted_jets e sv <> None) svs)
  (Hd : two_regions d)
  (Hok : chunk_ok rand_gauss e0 w0) :
  (exists hists s,
      run rand_gauss evaluate e0
      = Some (Metadata.dataset (metadata e0), hists, s) /\
      nth_error (heap s) 0 = Some (ObjEvents (with_shifts rand_gauss e0)) /\
      rows (with_shifts rand_gauss e0) = rows e0 /\
      List.length (heap s) = S (List.length (chunk_variations e0)) /\
      heap s
      = ObjEvents (with_shifts rand_gauss e0)
        :: map (fun sv => ObjJets (jets_of (with_shifts rand_gauss e0) sv))
             (chunk_variations e0) /\
      lookup "pt_scale_up" (attached (with_shifts rand_gauss e0))
      = Some (PerEvent (repeat 1.03%Q (List.length (rows e0)))) /\
      lookup "pt_res_up" (attached (with_shifts rand_gauss e0))
      = Some (PerObject (rand_gauss (jets_pt (map Jet (rows e0))))) /\
      jets_of (with_shifts rand_gauss e0) "pt_scale_up"
      = map (fun ev =>
               map (fun j => Jet.with_pt j (Jet.pt j * 1.03)%Q) (Jet ev))
          (rows e0) /\
      jets_of (with_shifts rand_gauss e0) "pt_res_up"
      = map (fun evxs =>
               map (fun jx =>
                      Jet.with_pt (fst jx) (Jet.pt (fst jx) * snd jx)%Q)
                 (combine (fst evxs) (snd evxs)))
          (combine (map Jet (rows e0))
             (rand_gauss (jets_pt (map Jet (rows e0)))))) /\
  exists s',
    for_each svs (variation_pass evaluate events process variation w)
      {| heap := h; hist_dict := d; cset_calls := q |} = Some (tt, s') /\
    heap s' = h ++ map (fun sv => ObjJets (jets_of e sv)) svs /\
    nth_error (heap s') events = Some (ObjEvents e) /\
    (forall a o, nth_error h a = Some o -> nth_error (heap s') a = Some o) /\
    (forall sv, In sv svs -> In sv jet_kinematic_systs ->
       exists shift,
         lookup sv (attached e) = Some shift /\
         multipliers_fit shift (map Jet (rows e)) /\
         jets_of e sv = momentum_times shift (map Jet (rows e)) /\
         mul_column (jets_pt (map Jet (rows e))) shift
         = Some (jets_pt (jets_of e sv)) /\
         Forall2 (Forall2 (fun a a' => a' = Jet.with_pt a (Jet.pt a')))
           (map Jet (rows e)) (jets_of e sv)) /\
    (forall sv, In sv svs -> ~ In sv jet_kinematic_systs ->
       jets_of e sv = map Jet (rows e)) /\
    (exists jets s'',
        events_Jet events s' = Some (jets, s'') /\
        load_jets jets s'' = Some (map Jet (rows e), s'')) /\
    (forall sv j, shifted_jets e sv = Some j ->
       exists r s1 s2,
         select events sv {| heap := h; hist_dict := d; cset_calls := q |}
         = Some (r, s1) /\
         select events sv s' = Some (r, s2)).
Proof.
  split.
  { do 2 eexists. split; [apply (run_eq evaluate Hok)|].
    split; [reflexivity|]. split; [reflexivity|].
    split; [unfold chunk_state; cbn [heap List.length];
            now rewrite length_map|].
    split; [reflexivity|]. split; [reflexivity|]. split; [reflexivity|].
    split.
    - unfold jets_of. now rewrite shifted_jets_scale.
    - destruct Hok as [_ Hsh].
      destruct (shifted_jets_res _ _ Hsh) as (pt & j & _ & Hj & _).
      unfold jets_of. rewrite Hj.
      destruct (@shifted_jets_product (with_shifts rand_gauss e0)
                  "pt_res_up" j eq_refl Hj) as (shift & Hl & _ & ->).
      inversion Hl; subst. reflexivity. }
  eexists. split.
  { apply (@for_each_passes V evaluate svs h d q events e process variation w
             Hev Hsvs Hd). }
  cbn [heap]. split; [reflexivity|].
  split; [now apply nth_error_grow|].
  split; [intros a o Ha; now apply nth_error_grow|].
  split; [|split; [|split]].
  - intros sv Hsv Hkin.
    assert (Hin : str_in sv jet_kinematic_systs = true).
    { unfold str_in. apply existsb_exists. exists sv. split; auto.
      apply String.eqb_refl. }
    pose proof (proj1 (Forall_forall _ _) Hsvs sv Hsv) as Hdef.
    destruct (shifted_jets e sv) as [j0|] eqn:Ej0; [clear Hdef|congruence].
    destruct (shifted_jets_product _ _ Hin Ej0) as (shift & Hl & Hfit & Hj0).
    assert (Hjo : jets_of e sv = j0) by (unfold jets_of; now rewrite Ej0).
    rewrite Hjo. exists shift.
    split; [exact Hl|]. split; [exact Hfit|]. split; [exact Hj0|].
    unfold shifted_jets in Ej0. rewrite Hin, Hl in Ej0.
    destruct (mul_column (jets_pt (map Jet (rows e))) shift) as [pt|] eqn:Ep;
      [|discriminate].
    apply with_pt_events in Ej0 as [Hpt Hrest].
    rewrite Hpt. auto.
  - intros sv _ Hkin. unfold jets_of.
    rewrite shifted_jets_nominal; auto.
    destruct (str_in sv jet_kinematic_systs) eqn:E; auto.
    apply str_in_cases in E. contradiction.
  - do 2 eexists. split.
    + apply (@events_Jet_eq _ _ _ events e). apply nth_error_grow.
      exact Hev.
    + apply load_jets_snoc.
  - intros sv j Hj.
    do 3 eexists. split.
    + apply (@select_eq h d q events e sv j Hev Hj).
    + apply (@select_eq _ _ _ events e sv j
               (@nth_error_grow _ h _ events _ Hev) Hj).
Qed.

(** C7. For "nominal" and for a weight-type variation the pass selects the
    objects and registers the region masks of the nominal selection: the
    object selection on the unshifted momenta and the region selection on its
    result, whatever passes came before; the fills of the pass are made on
    them.  Every candidate variation is "nominal", a weight-type variation or
    a kinematic shift. *)
Theorem nominal_selection_reused (h : list Obj)
  (d : list (string * list Fill.t)) (q : list Query.t) (events : nat)
  (e : NanoEvents) (process variation : string) (w : Q)
  (svs : list string) (syst_var : string)
  (Hev : nth_error h events = Some (ObjEvents e))
  (Hsvs : Forall (fun sv => shifted_jets e sv <> None) svs)
  (Hd : two_regions d)
  (Hsv : syst_var = "nominal" \/ In syst_var (event_systs process)) :
  let nominal :=
    object_selection (map Electron (rows e)) (map Muon (rows e))
      (map Jet (rows e)) in
  let evs := selected_events (rows e) (map Jet (rows e)) in
  exists sel s' s1 s2 s3,
    region_selection (fst (fst nominal)) (snd (fst nominal)) (snd nominal)
    = Some sel /\
    nominal = (map Electron evs, map Muon evs, map Jet evs) /\
    select events "nominal" {| heap := h; hist_dict := d; cset_calls := q |}
    = Some (nominal, sel, s1) /\
    for_each svs (variation_pass evaluate events process variation w)
      {| heap := h; hist_dict := d; cset_calls := q |} = Some (tt, s') /\
    select events syst_var s' = Some (nominal, sel, s2) /\
    variation_pass evaluate events process variation w syst_var s'
    = Some (tt, s3) /\
    hist_dict s3
    = extend "4j2b"
        (pass_fills evaluate process variation w syst_var "4j2b" evs)
        (extend "4j1b"
           (pass_fills evaluate process variation w syst_var "4j1b" evs)
           (hist_dict s')) /\
    (forall region f,
        mask_of region = Some f ->
        PackedSelection.all sel [region] = Some (map f evs)) /\
    pass_events e syst_var = pass_events e "nominal" /\
    (forall v, In v (syst_variations process variation) ->
               v = "nominal" \/ In v (event_systs process) \/
               In v jet_kinematic_systs).
Proof.
  intros nominal evs.
  assert (Hkin : str_in syst_var jet_kinematic_systs = false).
  { destruct Hsv as [->|Hin]; [reflexivity|].
    unfold event_systs in Hin.
    destruct (String.eqb process "wjets"); simpl in Hin.
    all: repeat match goal with
         | H : _ \/ _ |- _ => destruct H as [<-|H]
         | H : False |- _ => destruct H
         end; reflexivity. }
  pose proof (@shifted_jets_nominal e syst_var Hkin) as Hj.
  pose proof (@shifted_jets_nominal e "nominal" eq_refl) as Hn.
  assert (Hlen : List.length (map Jet (rows e)) = List.length (rows e))
    by apply length_map.
  assert (Hnom : nominal = (map Electron evs, map Muon evs, map Jet evs))
    by apply (@object_selection_events _ _ Hlen).
  pose proof (@nth_error_grow _ h
                (map (fun sv => ObjJets (jets_of e sv)) svs) events _ Hev)
    as Hev'.
  exists (packed_selection evs). do 4 eexists.
  split; [rewrite Hnom; apply region_selection_packed|].
  split; [exact Hnom|].
  split; [apply (@select_eq h d q events e "nominal" _ Hev Hn)|].
  split; [apply (@for_each_passes V evaluate svs h d q events e process
                   variation w Hev Hsvs Hd)|].
  split; [apply (@select_eq _ _ _ events e syst_var _ Hev' Hj)|].
  split.
  { apply (@variation_pass_eq V evaluate _ _ _ events e process variation w
             syst_var _ Hev' Hj).
    unfold two_regions. now rewrite !extend_keys. }
  split; [reflexivity|].
  split; [|split].
  - intros region f Hf. now apply packed_lookup.
  - unfold pass_events, jets_of. now rewrite Hj, Hn.
  - intros v Hv. unfold syst_variations in Hv.
    destruct (String.eqb variation "nominal").
    + apply in_app_or in Hv as [Hv|Hv]; [|auto].
      apply in_app_or in Hv as [[<-|[]]|Hv]; auto.
    + destruct Hv as [<-|[]]; auto.
Qed.

End DriverClaims.

(** ** Closed instances *)

Lemma candidate_variations_and_fill_counts_witness :
  exists h1 h2 s,
    run (V := additive_vectors) a_smearing a_correction
      (a_chunk "ttbar" "nominal")
    = Some ("sample", [("4j1b", h1); ("4j2b", h2)], s) /\
    List.length h1 = 11 /\ List.length h2 = 11.
Proof.
  destruct (@candidate_variations_and_fill_counts additive_vectors
              a_smearing a_correction (a_chunk "ttbar" "nominal") a_weight)
    as (_ & _ & _ & h1 & h2 & s & Hrun & Hnom & _).
  - split; reflexivity.
  - exists h1, h2, s. split; [exact Hrun|].
    destruct (Hnom eq_refl eq_refl) as (H1 & H2 & _). split; assumption.
Defined.


Lemma kinematic_shift_leaves_batch_untouched_witness :
  exists s',
    for_each ["pt_scale_up"; "pt_res_up"]
      (variation_pass (V := additive_vectors) a_correction 0 "ttbar"
         "nominal" a_weight)
      {| heap := [ObjEvents (with_shifts a_smearing
                               (a_chunk "ttbar" "nominal"))];
         hist_dict := [("4j1b", []); ("4j2b", [])]; cset_calls := [] |}
    = Some (tt, s') /\
    nth_error (heap s') 0
    = Some (ObjEvents (with_shifts a_smearing (a_chunk "ttbar" "nominal"))) /\
    List.length (heap s') = 3.
Proof.
  destruct (@kinematic_shift_leaves_batch_untouched additive_vectors
              a_smearing a_correction
              [ObjEvents (with_shifts a_smearing (a_chunk "ttbar" "nominal"))]
              [("4j1b", []); ("4j2b", [])] [] 0
              (with_shifts a_smearing (a_chunk "ttbar" "nominal"))
              "ttbar" "nominal" a_weight ["pt_scale_up"; "pt_res_up"]
              (a_chunk "ttbar" "nominal") a_weight)
    as (_ & s' & Hrun & Hheap & Hbatch & _).
  - reflexivity.
  - repeat constructor; vm_compute; discriminate.
  - reflexivity.
  - split; reflexivity.
  - exists s'. split; [exact Hrun|]. split; [exact Hbatch|].
    rewrite Hheap. reflexivity.
Defined.

Lemma nominal_selection_reused_witness :
  exists sel s s2,
    for_each ["pt_scale_up"]
      (variation_pass (V := additive_vectors) a_correction 0 "ttbar"
         "nominal" a_weight)
      {| heap := [ObjEvents (with_shifts a_smearing
                               (a_chunk "ttbar" "nominal"))];
         hist_dict := [("4j1b", []); ("4j2b", [])]; cset_calls := [] |}
    = Some (tt, s) /\
    select 0 "btag_var_0" s
    = Some (object_selection
              (map Electron (rows (a_chunk "ttbar" "nominal")))
              (map Muon (rows (a_chunk "ttbar" "nominal")))
              (map Jet (rows (a_chunk "ttbar" "nominal"))), sel, s2) /\
    PackedSelection.all sel ["4j1b"] = Some [false; true; false].
Proof.
  destruct (@nominal_selection_reused additive_vectors a_correction
              [ObjEvents (with_shifts a_smearing (a_chunk "ttbar" "nominal"))]
              [("4j1b", []); ("4j2b", [])] [] 0
              (with_shifts a_smearing (a_chunk "ttbar" "nominal"))
              "ttbar" "nominal" a_weight ["pt_scale_up"] "btag_var_0")
    as (sel & s & s1 & s2 & s3 & _ & _ & _ & Hrun & Hsel & _ & _ & Hmask & _).
  - reflexivity.
  - repeat constructor; vm_compute; discriminate.
  - reflexivity.
  - right. left. reflexivity.
  - exists sel, s, s2. split; [exact Hrun|]. split; [exact Hsel|].
    rewrite (Hmask "4j1b" in_4j1b eq_refl). reflexivity.
Defined.

(** A kinematic shift can change the selection: scaled by 1.03, the jet of
    29.5 passes the momentum cut. *)
Example pt_scale_up_changes_selection :
  pass_events (with_shifts a_smearing (a_chunk "ttbar" "nominal"))
    "pt_scale_up"
  <> pass_events (with_shifts a_smearing (a_chunk "ttbar" "nominal"))
       "nominal".
Proof. vm_compute. discriminate. Qed.

(** * Further properties of the notebook's functions *)

(** ** [calculate_trijet_mass] *)

Lemma filter_of_map {A B} (P : B -> bool) (h : A -> B) (l : list A) :
  filter P (map h l) = map h (filter (fun x => P (h x)) l).
Proof.
  induction l as [|x l IH]; simpl; [reflexivity|].
  destruct (P (h x)); simpl; now rewrite IH.
Qed.

Section PlainObservableProperties.
Context {V : Vector4}.

(** The event filter of [calculate_trijet_mass], on one event. *)
Lemma event_filter_loose (r : Event) :
  Nat.eqb (List.length (map Electron.pt
                          (filter loose_electron_reqs (Electron r)))
           + List.length (map Muon.pt (filter loose_muon_reqs (Muon r)))) 1
  && Nat.leb 4 (List.length (map Jet.pt (filter loose_jet_reqs (Jet r))))
  && Nat.leb 2
       (List.length
          (filter (fun b : bool => b)
             (map (fun j => Qgtb (Jet.btagCSVV2 j) B_TAG_THRESHOLD)
                (filter loose_jet_reqs (Jet r)))))
  = in_4j2b (loose_event r).
Proof.
  unfold in_4j2b, exactly_1l, atleast_4j, atleast_2b, n_btagged, loose_event.
  cbn [Electron Muon Jet]. now rewrite !length_map, filter_id_map.
Qed.

Lemma calculate_trijet_mass_eq (events : NanoEvents) :
  calculate_trijet_mass events
  = calculate_m_reco_top
      (map Jet (filter in_4j2b (map loose_event (rows events)))).
Proof.
  assert (H1 : ak.zip_with Nat.add
                 (ak_count (map (map Electron.pt)
                              (ak.mask_objects loose_electron_reqs
                                 (map Electron (rows events)))))
                 (ak_count (map (map Muon.pt)
                              (ak.mask_objects loose_muon_reqs
                                 (map Muon (rows events)))))
               = Some (map (fun r =>
                              List.length
                                (map Electron.pt
                                   (filter loose_electron_reqs (Electron r)))
                              + List.length
                                  (map Muon.pt
                                     (filter loose_muon_reqs (Muon r))))
                         (rows events))).
  { unfold ak_count, ak.mask_objects. rewrite !map_map. apply zip_with_map. }
  assert (H2 : map (fun n => Nat.leb 4 n)
                 (ak_count (jets_pt (ak.mask_objects loose_jet_reqs
                                       (map Jet (rows events)))))
               = map (fun r =>
                        Nat.leb 4
                          (List.length
                             (map Jet.pt (filter loose_jet_reqs (Jet r)))))
                   (rows events)).
  { unfold ak_count, ak.mask_objects, jets_pt. now rewrite !map_map. }
  assert (H3 : map (fun n => Nat.leb 2 n)
                 (ak.sum_bool (btagged (ak.mask_objects loose_jet_reqs
                                          (map Jet (rows events)))))
               = map (fun r =>
                        Nat.leb 2
                          (List.length
                             (filter (fun b : bool => b)
                                (map (fun j => Qgtb (Jet.btagCSVV2 j)
                                                 B_TAG_THRESHOLD)
                                   (filter loose_jet_reqs (Jet r))))))
                   (rows events)).
  { unfold ak.sum_bool, ak.mask_objects, btagged. now rewrite !map_map. }
  assert (H4 : ak.mask_objects loose_jet_reqs (map Jet (rows events))
               = map (fun r => filter loose_jet_reqs (Jet r)) (rows events)).
  { unfold ak.mask_objects. now rewrite map_map. }
  unfold calculate_trijet_mass.
  rewrite H1, H2, H3, H4. rewrite map_map.
  rewrite zip_with_map, zip_with_map.
  rewrite (map_ext _ _ event_filter_loose).
  rewrite (@mask_events_map _ _
             (fun r => filter loose_jet_reqs (Jet r))
             (fun r => in_4j2b (loose_event r)) (rows events)).
  rewrite filter_of_map, (map_map loose_event Jet). reflexivity.
Qed.

(** X1. [calculate_trijet_mass] never raises.  Its result has one entry for
    each event with exactly one lepton, at least four jets and at least two
    b-tagged jets among the objects that pass its own cuts, in the order of
    the batch, and none for the other events; the entry is the mass of a
    surviving trijet candidate of largest transverse momentum, never the
    missing value; and it is what [calculate_m_reco_top] gives on the jets of
    these events. *)
Theorem calculate_trijet_mass_entries (events : NanoEvents) :
  exists obs,
    calculate_trijet_mass events = Some obs /\
    calculate_m_reco_top
      (map Jet (filter in_4j2b (map loose_event (rows events)))) = Some obs /\
    Forall2 (fun ev o =>
               4 <= List.length (Jet ev) /\
               exists c, In c (candidates (Jet ev)) /\
                         (forall c', In c' (candidates (Jet ev)) ->
                                     (trijet_pt c' <= trijet_pt c)%Q) /\
                         o = Some (trijet_mass c))
      (filter in_4j2b (map loose_event (rows events))) obs.
Proof.
  rewrite calculate_trijet_mass_eq, calculate_m_reco_top_events.
  eexists. split; [reflexivity|]. split; [reflexivity|].
  rewrite map_map. rewrite <- (map_id (filter _ _)) at 1.
  apply Forall2_maps. intros ev Hev.
  apply filter_In in Hev as [_ Hsel].
  split.
  - unfold in_4j2b, atleast_4j in Hsel.
    rewrite !andb_true_iff, Nat.leb_le in Hsel. tauto.
  - apply in_4j2b_candidates in Hsel.
    destruct (pick_spec Hsel) as (k & c & Hp & Hk & Hmax & _).
    exists c. rewrite Hp. repeat split; auto.
    eapply nth_error_In; eauto.
Qed.

End PlainObservableProperties.

(** ** [calculate_m_reco_top]: ties *)

Section TieBreak.
Context {V : Vector4}.

(** X2. Among surviving candidates of equal largest transverse momentum
    [calculate_m_reco_top] takes the first in the order of the combinations:
    every earlier candidate has a strictly smaller transverse momentum.  The
    combinations of four jets [a; b; c; d] come in the order abc, abd, acd,
    bcd. *)
Theorem calculate_m_reco_top_first_largest (jets : list (list Jet.t))
  (a b c d : Jet.t) :
  ak.combinations3 [a; b; c; d] = [(a, b, c); (a, b, d); (a, c, d); (b, c, d)]
  /\
  exists obs,
    calculate_m_reco_top jets = Some obs /\
    Forall2 (fun ev o =>
               match candidates ev with
               | [] => o = None
               | _ :: _ =>
                   exists k t,
                     nth_error (candidates ev) k = Some t /\
                     o = Some (trijet_mass t) /\
                     (forall t', In t' (candidates ev) ->
                                 (trijet_pt t' <= trijet_pt t)%Q) /\
                     (forall i t', i < k ->
                                   nth_error (candidates ev) i = Some t' ->
                                   (trijet_pt t' < trijet_pt t)%Q)
               end) jets obs.
Proof.
  split; [reflexivity|].
  rewrite calculate_m_reco_top_events.
  eexists. split; [reflexivity|].
  rewrite <- (map_id jets) at 1. apply Forall2_maps. intros ev _.
  destruct (candidates ev) as [|t0 ts] eqn:E; [reflexivity|].
  destruct (pick_spec (cs := t0 :: ts)) as (k & t & Hp & Hk & Hmax & Hfirst);
    [discriminate|].
  exists k, t. rewrite Hp. repeat split; auto.
Qed.

End TieBreak.

(** ** [object_selection] *)

Lemma filter_twice {A} (f : A -> bool) (l : list A) :
  filter f (filter f l) = filter f l.
Proof.
  induction l as [|x l IH]; simpl; [reflexivity|].
  destruct (f x) eqn:E; simpl; rewrite ?E, IH; reflexivity.
Qed.

Lemma mask_objects_twice {A} (f : A -> bool) (a : list (list A)) :
  ak.mask_objects f (ak.mask_objects f a) = ak.mask_objects f a.
Proof.
  unfold ak.mask_objects. rewrite map_map. apply map_ext. intro ev.
  apply filter_twice.
Qed.

Lemma Qltb_true (x y : Q) : Qltb x y = true <-> (x < y)%Q.
Proof.
  unfold Qltb. rewrite negb_true_iff, <- not_true_iff_false, Qle_bool_iff.
  split; [apply Qnot_le_lt | apply Qlt_not_le].
Qed.

(** X3. [object_selection] keeps the number of events of each collection
    and the order of the objects, and every jet it keeps has a momentum above
    30, a pseudorapidity below 2.4 in magnitude and the lepton veto;
    selecting again among the selected objects changes nothing. *)
Theorem object_selection_projection (elecs : list (list Electron.t))
  (muons : list (list Muon.t)) (jets : list (list Jet.t)) :
  let '(elecs', muons', jets') := object_selection elecs muons jets in
  object_selection elecs' muons' jets' = (elecs', muons', jets') /\
  List.length elecs' = List.length elecs /\
  List.length muons' = List.length muons /\
  List.length jets' = List.length jets /\
  Forall2 (fun ev ev' =>
             (forall j, In j ev' <->
                        In j ev /\ (30 < Jet.pt j)%Q /\
                        (Qabs (Jet.eta j) < 2.4)%Q /\
                        Jet.isTightLeptonVeto j = true) /\
             List.length ev' <= List.length ev)
    jets jets'.
Proof.
  unfold object_selection.
  rewrite !mask_objects_twice. split; [reflexivity|].
  unfold ak.mask_objects. rewrite !length_map. repeat split; auto.
  rewrite <- (map_id jets) at 1. apply Forall2_maps. intros ev _. split.
  - intro j. rewrite filter_In. unfold jet_reqs.
    rewrite !andb_true_iff, Qgtb_true, Qltb_true. tauto.
  - apply filter_length_le.
Qed.

(** ** [region_selection]: errors and lookups *)

Lemma add_length_mismatch (n : string) (names : list string) (d : list Z)
  (name : string) (selection : list bool) :
  List.length d <> List.length selection ->
  PackedSelection.add
    {| PackedSelection._names := n :: names;
       PackedSelection._data := Some d |} name selection = None.
Proof.
  intro Hne. unfold PackedSelection.add.
  destruct (PackedSelection.has_name _ name); [reflexivity|].
  cbn [PackedSelection._names PackedSelection._data].
  destruct (Nat.eqb _ PackedSelection.maxitems); [reflexivity|].
  destruct (Nat.eqb_spec (List.length d) (List.length selection));
    [contradiction|reflexivity].
Qed.

Lemma columns_as_events (elecs : list (list Electron.t))
  (muons : list (list Muon.t)) (jets : list (list Jet.t)) :
  List.length elecs = List.length muons ->
  List.length muons = List.length jets ->
  exists evs, elecs = map Electron evs /\ muons = map Muon evs /\
              jets = map Jet evs.
Proof.
  revert muons jets.
  induction elecs as [|e elecs IH]; intros [|m muons] [|j jets] H1 H2;
    simpl in H1, H2; try discriminate.
  - exists []. auto.
  - destruct (IH muons jets) as (evs & -> & -> & ->); [lia|lia|].
    exists ({| Electron := e; Muon := m; Jet := j |} :: evs). auto.
Qed.

(** X4. On collections with the same number of events [region_selection]
    never raises: it returns a selection with the six names "exactly_1l",
    "atleast_4j", "exactly_1b", "atleast_2b", "4j1b", "4j2b", in this order,
    and one integer below 64 per event.  When the jets have another number of
    events than the leptons, the second registration is refused and
    [region_selection] raises. *)
Theorem region_selection_defined (elecs : list (list Electron.t))
  (muons : list (list Muon.t)) (jets : list (list Jet.t))
  (Hlep : List.length elecs = List.length muons) :
  (List.length muons = List.length jets ->
   exists s d,
     region_selection elecs muons jets = Some s /\
     PackedSelection._names s = region_names /\
     PackedSelection._data s = Some d /\
     List.length d = List.length jets /\
     Forall (fun x => (0 <= x < 64)%Z) d) /\
  (List.length muons <> List.length jets ->
   region_selection elecs muons jets = None).
Proof.
  split.
  - intro Hjets.
    destruct (columns_as_events _ _ _ Hlep Hjets) as (evs & -> & -> & ->).
    rewrite region_selection_packed. do 2 eexists.
    split; [reflexivity|]. split; [reflexivity|]. split; [reflexivity|].
    rewrite !length_map. split; [reflexivity|].
    apply Forall_forall. intros x Hx. apply in_map_iff in Hx as (ev & <- & _).
    unfold packed.
    destruct (exactly_1l ev), (atleast_4j ev), (exactly_1b ev),
      (atleast_2b ev), (in_4j1b ev), (in_4j2b ev); cbv; split; congruence.
  - intro Hne. unfold region_selection.
    destruct (zip_with_total Nat.add (ak.num elecs) (ak.num muons))
      as (nlep & -> & Hn).
    { unfold ak.num. now rewrite !length_map. }
    rewrite add_first, add_length_mismatch; [reflexivity|].
    unfold ak.num in *. rewrite !length_map in *. lia.
Qed.

Lemma region_selection_defined_witness :
  region_selection [[]; []] [[a_muon]; []] [[]] = None.
Proof.
  apply (@region_selection_defined [[]; []] [[a_muon]; []] [[]] eq_refl).
  discriminate.
Defined.

Lemma land_lor_covers (x c b : Z) :
  Z.eqb (Z.land x (Z.lor c b)) (Z.lor c b)
  = Z.eqb (Z.land x c) c && Z.eqb (Z.land x b) b.
Proof.
  apply eq_true_iff_eq. rewrite andb_true_iff, !Z.eqb_eq. split.
  - intro H. split; apply Z.bits_inj'; intros n _;
      apply (f_equal (fun z => Z.testbit z n)) in H;
      rewrite Z.land_spec, Z.lor_spec in H; rewrite Z.land_spec;
      destruct (Z.testbit x n), (Z.testbit c n), (Z.testbit b n);
      simpl in *; congruence.
  - intros [Hc Hb]. apply Z.bits_inj'; intros n _.
    apply (f_equal (fun z => Z.testbit z n)) in Hc, Hb.
    rewrite Z.land_spec in Hc, Hb. rewrite Z.land_spec, Z.lor_spec.
    destruct (Z.testbit x n), (Z.testbit c n), (Z.testbit b n);
      simpl in *; congruence.
Qed.

Lemma packed_bit (name : string) (ev : Event) :
  In name region_names ->
  exists idx,
    PackedSelection.index name region_names = Some idx /\
    Z.eqb (Z.land (packed ev) (Z.shiftl 1 (Z.of_nat idx)))
      (Z.shiftl 1 (Z.of_nat idx)) = mask_value name ev.
Proof.
  intro H. unfold region_names in H. simpl in H.
  repeat match goal with
  | H : _ \/ _ |- _ => destruct H as [<-|H]
  | H : False |- _ => destruct H
  end.
  all: eexists; split; [reflexivity|].
  all: unfold mask_value, mask_of; cbn [lookup String.eqb Ascii.eqb Bool.eqb];
    unfold packed, in_4j1b, in_4j2b.
  all: destruct (exactly_1l ev), (atleast_4j ev), (exactly_1b ev),
         (atleast_2b ev); reflexivity.
Qed.

Lemma masks_all (names : list string) :
  forallb (fun n => str_in n region_names) names = true ->
  exists c,
    PackedSelection.masks region_names (map (fun n => (n, true)) names)
    = Some (c, c) /\
    forall ev, Z.eqb (Z.land (packed ev) c) c
               = forallb (fun n => mask_value n ev) names.
Proof.
  induction names as [|n names IH]; intro H.
  - exists 0%Z. split; [reflexivity|]. intro ev. now rewrite Z.land_0_r.
  - cbn [forallb] in H. apply andb_true_iff in H as [Hn Hrest].
    destruct (IH Hrest) as (c & Hc & Hev).
    apply str_in_cases in Hn.
    destruct (@packed_bit n event_empty Hn) as (idx & Hidx & _).
    exists (Z.lor c (Z.shiftl 1 (Z.of_nat idx))). split.
    + cbn [map PackedSelection.masks]. now rewrite Hidx, Hc.
    + intro ev. rewrite land_lor_covers, Hev. cbn [forallb].
      destruct (@packed_bit n ev Hn) as (idx' & Hidx' & Hbit).
      assert (idx' = idx) by congruence. subst idx'.
      rewrite Hbit. apply andb_comm.
Qed.

(** A list of names is required like its first name and the rest. *)
Lemma require_names (evs : list Event) (names : list string) :
  PackedSelection.require (packed_selection evs)
    (map (fun name => (name, true)) names)
  = if forallb (fun n => str_in n region_names) names
    then Some (map (fun ev => forallb (fun n => mask_value n ev) names) evs)
    else None.
Proof.
  unfold PackedSelection.require, packed_selection.
  assert (Hk : forallb
                 (fun c : string * bool =>
                    PackedSelection.has_name
                      {| PackedSelection._names := region_names;
                         PackedSelection._data := Some (map packed evs) |}
                      (fst c))
                 (map (fun name => (name, true)) names)
               = forallb (fun n => str_in n region_names) names).
  { induction names as [|n names IH]; [reflexivity|].
    cbn [map forallb fst]. now rewrite IH. }
  rewrite Hk.
  destruct (forallb (fun n => str_in n region_names) names) eqn:E;
    [|reflexivity].
  cbn [PackedSelection._names PackedSelection._data].
  destruct (@masks_all names E) as (c & -> & Hev).
  cbn [fst snd].
  rewrite map_map. f_equal. apply map_ext. exact Hev.
Qed.

(** No event has exactly one and at least two b-tagged jets. *)
Lemma all_six_masks (ev : Event) :
  forallb (fun n => mask_value n ev) region_names = false.
Proof.
  unfold region_names, mask_value, mask_of, exactly_1b, atleast_2b;
    cbn [forallb lookup String.eqb Ascii.eqb Bool.eqb].
  destruct (Nat.eqb_spec (n_btagged ev) 1) as [->|]; simpl;
    rewrite ?andb_false_r; reflexivity.
Qed.

(** X5. On the selection [region_selection] returns, [all] with one or more
    names raises when one of them is not registered, and otherwise gives,
    event by event, the conjunction of the masks the names stand for; so the
    order of the names and their repetition do not matter.  Without a name
    [all] requires the six registered selections together, which no event
    passes, as "exactly_1b" and "atleast_2b" exclude each other. *)
Theorem region_lookup_any_names (evs : list Event) :
  exists s,
    region_selection (map Electron evs) (map Muon evs) (map Jet evs)
    = Some s /\
    (forall name names,
       PackedSelection.all s (name :: names)
       = if forallb (fun n => str_in n region_names) (name :: names)
         then Some (map (fun ev =>
                           forallb (fun n => mask_value n ev)
                             (name :: names))
                      evs)
         else None) /\
    PackedSelection.all s [] = Some (map (fun _ => false) evs).
Proof.
  eexists. split; [apply region_selection_packed|].
  fold (packed_selection evs). split.
  - intros name names. apply (require_names evs (name :: names)).
  - unfold PackedSelection.all.
    change (PackedSelection._names (packed_selection evs))
      with region_names.
    rewrite require_names.
    assert (H : forallb (fun n => str_in n region_names) region_names = true)
      by reflexivity.
    rewrite H. f_equal. apply map_ext. exact all_six_masks.
Qed.

(** ** The names of the b-tag variations *)

Lemma digits_no_sep (d : Decimal.uint) :
  contains "_"%char (NilEmpty.string_of_uint d) = false.
Proof. induction d; simpl; auto. Qed.

Lemma str_no_sep (i : nat) : contains "_"%char (str i) = false.
Proof.
  unfold str, NilZero.string_of_uint.
  destruct (Nat.to_uint i); try apply digits_no_sep. reflexivity.
Qed.

Lemma rsplit_last_after (sep : Ascii.ascii) (p d : string) :
  contains sep d = false ->
  rsplit_last sep (p ++ String sep d)%string = d.
Proof.
  intro Hd. induction p as [|c p IH]; simpl.
  - now rewrite Hd, Ascii.eqb_refl.
  - assert (Hc : contains sep (p ++ String sep d)%string = true).
    { clear IH. induction p as [|c' p IH']; simpl.
      - now rewrite Ascii.eqb_refl.
      - rewrite IH'. apply orb_true_r. }
    now rewrite Hc.
Qed.

Lemma int_str (i : nat) : int (str i) = Some i.
Proof.
  unfold int, str.
  assert (Hn : Nat.to_uint i <> Decimal.Nil).
  { rewrite <- (DecimalNat.Unsigned.of_to i) at 1.
    rewrite DecimalNat.Unsigned.to_of. apply DecimalFacts.unorm_nonnil. }
  assert (Hs : NilZero.string_of_uint (Nat.to_uint i)
               = NilEmpty.string_of_uint (Nat.to_uint i))
    by (unfold NilZero.string_of_uint; destruct (Nat.to_uint i); congruence).
  rewrite Hs.
  assert (Hu : NilZero.uint_of_string
                 (NilEmpty.string_of_uint (Nat.to_uint i))
               = Some (Nat.to_uint i)).
  { rewrite <- Hs. now apply NilZero.usu. }
  rewrite Hu. simpl. now rewrite DecimalNat.Unsigned.of_to.
Qed.

(** X6. The jet position written into the name of a b-tag variation is read
    back from it: for every [i], the text after the last "_" of
    "btag_var_" followed by [i] in decimal is [i] in decimal, [int] of it is
    [i], and the variation is routed to the family "btag_var" with the jet at
    position [i], never to "scale_var". *)
Theorem btag_variation_name_round_trip (i : nat) (prefix : string) :
  rsplit_last "_"%char (prefix ++ "_" ++ str i)%string = str i /\
  int (str i) = Some i /\
  weight_source ("btag_var_" ++ str i)%string = Some ("btag_var", i) /\
  (i < 4 -> forall process,
      str_in ("btag_var_" ++ str i)%string (event_systs process) = true).
Proof.
  split; [|split; [|split]].
  - apply (rsplit_last_after "_"%char prefix (str i)), str_no_sep.
  - apply int_str.
  - unfold weight_source.
    change ("btag_var_" ++ str i)%string
      with ("btag_var" ++ String "_"%char (str i))%string at 3.
    rewrite rsplit_last_after by apply str_no_sep.
    rewrite int_str. reflexivity.
  - intros Hi process. unfold event_systs.
    destruct i as [|[|[|[|]]]]; try lia.
    all: destruct (String.eqb process "wjets"); reflexivity.
Qed.

Lemma btag_variation_name_round_trip_witness :
  rsplit_last "_"%char ("btag_var" ++ "_" ++ str 3)%string = str 3 /\
  int (str 3) = Some 3 /\
  weight_source ("btag_var_" ++ str 3)%string = Some ("btag_var", 3) /\
  str_in ("btag_var_" ++ str 3)%string (event_systs "ttbar") = true.
Proof.
  destruct (btag_variation_name_round_trip 3 "btag_var")
    as (H1 & H2 & H3 & H4).
  split; [exact H1|]. split; [exact H2|]. split; [exact H3|].
  apply H4. repeat constructor.
Defined.

(** ** The scale shift and the selection *)

Lemma scale_up_above (p : Q) : (30 < p)%Q -> (30 < p * 1.03)%Q.
Proof. intro H. lra. Qed.

Lemma fold_left_Qplus_ge (l : list Q) (a : Q) :
  Forall (fun x => (0 <= x)%Q) l -> (a <= fold_left Qplus l a)%Q.
Proof.
  revert a. induction l as [|x l IH]; intros a H; simpl.
  - lra.
  - inversion H; subst. specialize (IH (a + x)%Q H3). lra.
Qed.

Lemma combine_with_map {A B} (g : A -> B) (l : list A) :
  combine l (map g l) = map (fun x => (x, g x)) l.
Proof. induction l; simpl; congruence. Qed.

Lemma selected_events_map (g : Event -> list Jet.t) (rows : list Event) :
  selected_events rows (map g rows)
  = map (fun r => {| Electron := filter electron_reqs (Electron r);
                     Muon := filter muon_reqs (Muon r);
                     Jet := filter jet_reqs (g r) |}) rows.
Proof.
  unfold selected_events. now rewrite combine_with_map, map_map.
Qed.

Lemma pass_events_nominal (e : NanoEvents) (syst_var : string) :
  str_in syst_var jet_kinematic_systs = false ->
  pass_events e syst_var = map tight_event (rows e).
Proof.
  intro H. unfold pass_events, jets_of.
  rewrite (shifted_jets_nominal _ _ H). apply selected_events_map.
Qed.

Lemma pass_events_scale (rand_gauss : list (list Q) -> list (list Q))
  (e : NanoEvents) :
  pass_events (with_shifts rand_gauss e) "pt_scale_up"
  = map (fun r => tight_event (scale_up r)) (rows e).
Proof.
  unfold pass_events, jets_of. rewrite shifted_jets_scale.
  apply (selected_events_map
           (fun ev => map (fun j => Jet.with_pt j (Jet.pt j * 1.03)%Q)
                        (Jet ev))).
Qed.

Lemma filter_map_length_le {A} (P Q : A -> bool) (g : A -> A) (l : list A) :
  (forall x, P x = true -> Q (g x) = true) ->
  List.length (filter P l) <= List.length (filter Q (map g l)).
Proof.
  intro H. induction l as [|x l IH]; simpl; [lia|].
  destruct (P x) eqn:E.
  - rewrite (H x E). simpl. lia.
  - destruct (Q (g x)); simpl; lia.
Qed.

Lemma filter_filter {A} (P Q : A -> bool) (l : list A) :
  filter Q (filter P l) = filter (fun x => P x && Q x) l.
Proof.
  induction l as [|x l IH]; simpl; [reflexivity|].
  destruct (P x); simpl; [destruct (Q x)|]; now rewrite IH.
Qed.

Lemma jet_reqs_scale_up (j : Jet.t) :
  jet_reqs j = true ->
  jet_reqs (Jet.with_pt j (Jet.pt j * 1.03)%Q) = true.
Proof.
  unfold jet_reqs; cbn [Jet.with_pt Jet.pt Jet.eta Jet.isTightLeptonVeto].
  rewrite !andb_true_iff, !Qgtb_true. intros [[H1 H2] H3].
  repeat split; auto. now apply scale_up_above.
Qed.

(** The selection of one event under the scale shift against the nominal
    one. *)
Lemma scale_up_event (r : Event) :
  Electron (tight_event (scale_up r)) = Electron (tight_event r) /\
  Muon (tight_event (scale_up r)) = Muon (tight_event r) /\
  List.length (Jet (tight_event r))
  <= List.length (Jet (tight_event (scale_up r))) /\
  n_btagged (tight_event r) <= n_btagged (tight_event (scale_up r)) /\
  (in_4j2b (tight_event r) = true ->
   in_4j2b (tight_event (scale_up r)) = true).
Proof.
  assert (Hj : List.length (Jet (tight_event r))
               <= List.length (Jet (tight_event (scale_up r)))).
  { cbn [tight_event scale_up Jet].
    apply filter_map_length_le, jet_reqs_scale_up. }
  assert (Hb : n_btagged (tight_event r)
               <= n_btagged (tight_event (scale_up r))).
  { unfold n_btagged. cbn [tight_event scale_up Jet].
    rewrite !filter_filter. apply filter_map_length_le.
    intros j Hj'. apply andb_true_iff in Hj' as [H1 H2].
    now rewrite (jet_reqs_scale_up _ H1). }
  repeat split; auto.
  unfold in_4j2b, exactly_1l, atleast_4j, atleast_2b.
  cbn [tight_event scale_up Electron Muon].
  rewrite !andb_true_iff, !Nat.leb_le.
  fold (tight_event r). fold (tight_event (scale_up r)).
  intros [[H1 H2] H3]. repeat split; auto; lia.
Qed.

(** ** The fills of a chunk, one by one *)

Lemma syst_variations_nominal (process : string) :
  syst_variations process "nominal"
  = "nominal" :: "pt_scale_up" :: "pt_res_up" :: event_systs process.
Proof. reflexivity. Qed.

Lemma syst_variations_other (process variation : string) :
  variation <> "nominal" -> syst_variations process variation = ["nominal"].
Proof.
  intro H. unfold syst_variations. apply String.eqb_neq in H. now rewrite H.
Qed.

Lemma not_weight_type (process syst_var : string) :
  syst_var = "nominal" \/ In syst_var jet_kinematic_systs ->
  str_in syst_var (event_systs process) = false.
Proof.
  intros [->|[<-|[<-|[]]]]; unfold event_systs;
    destruct (String.eqb process "wjets"); reflexivity.
Qed.

Lemma filter_length_mono {A} (P Q : A -> bool) (l : list A) :
  (forall x, P x = true -> Q x = true) ->
  List.length (filter P l) <= List.length (filter Q l).
Proof.
  intro H. rewrite <- (map_id l) at 2. now apply filter_map_length_le.
Qed.

Section ChunkFills.
Context {V : Vector4}.
Variable rand_gauss : list (list Q) -> list (list Q).
Variable evaluate : string -> string -> Q -> Q.

Lemma pass_fills_plain (process variation : string) (w : Q)
  (syst_var region : string) (evs : list Event) :
  syst_var = "nominal" \/ In syst_var jet_kinematic_systs ->
  pass_fills evaluate process variation w syst_var region evs
  = [plain_fill process variation w syst_var region evs].
Proof. intro H. unfold pass_fills. now rewrite (not_weight_type process H). Qed.

Lemma chunk_fills_nominal (e : NanoEvents) (w : Q) (region : string) :
  Metadata.variation (metadata e) = "nominal" ->
  chunk_fills rand_gauss evaluate e w region
  = plain_fill (Metadata.process (metadata e)) "nominal" w "nominal" region
      (pass_events (with_shifts rand_gauss e) "nominal")
    :: plain_fill (Metadata.process (metadata e)) "nominal" w "pt_scale_up"
         region (pass_events (with_shifts rand_gauss e) "pt_scale_up")
    :: plain_fill (Metadata.process (metadata e)) "nominal" w "pt_res_up"
         region (pass_events (with_shifts rand_gauss e) "pt_res_up")
    :: flat_map (fun sv =>
                   pass_fills evaluate (Metadata.process (metadata e))
                     "nominal" w sv region
                     (pass_events (with_shifts rand_gauss e) sv))
         (event_systs (Metadata.process (metadata e))).
Proof.
  intro Hv. unfold chunk_fills, chunk_variations.
  rewrite Hv, syst_variations_nominal. cbn [flat_map].
  rewrite !pass_fills_plain by (simpl; auto). reflexivity.
Qed.

Lemma chunk_fills_other (e : NanoEvents) (w : Q) (region : string) :
  Metadata.variation (metadata e) <> "nominal" ->
  chunk_fills rand_gauss evaluate e w region
  = [plain_fill (Metadata.process (metadata e))
       (Metadata.variation (metadata e)) w "nominal" region
       (pass_events (with_shifts rand_gauss e) "nominal")].
Proof.
  intro Hv. unfold chunk_fills, chunk_variations.
  rewrite (syst_variations_other _ Hv). cbn [flat_map].
  rewrite pass_fills_plain by auto. reflexivity.
Qed.

(** What every fill of a pass carries. *)
Lemma pass_fills_facts (process variation : string) (w : Q)
  (syst_var region : string) (evs : list Event) (f : Fill.t) :
  In f (pass_fills evaluate process variation w syst_var region evs) ->
  Fill.observable f = region_observable region evs /\
  Fill.process f = process /\
  List.length (Fill.weight f) = List.length (region_events region evs).
Proof.
  unfold pass_fills.
  destruct (str_in syst_var (event_systs process)).
  - destruct (weight_source syst_var) as [[family i]|]; [|intros []].
    intros [<-|[<-|[]]]; cbn; rewrite length_map; auto.
  - intros [<-|[]]; cbn; rewrite length_map; auto.
Qed.

Lemma chunk_fills_forall (e : NanoEvents) (w : Q) (region : string)
  (P : Fill.t -> Prop) :
  (forall sv f,
      In sv (chunk_variations e) ->
      In f (pass_fills evaluate (Metadata.process (metadata e))
              (Metadata.variation (metadata e)) w sv region
              (pass_events (with_shifts rand_gauss e) sv)) ->
      P f) ->
  Forall P (chunk_fills rand_gauss evaluate e w region).
Proof.
  intro H. apply Forall_forall. intros f Hf.
  unfold chunk_fills in Hf. apply in_flat_map in Hf as (sv & Hsv & Hin).
  eauto.
Qed.

End ChunkFills.

Lemma pass_events_length_le (e : NanoEvents) (syst_var : string) :
  List.length (pass_events e syst_var) <= List.length (rows e).
Proof.
  unfold pass_events, selected_events.
  rewrite length_map, length_combine. apply Nat.le_min_l.
Qed.

Lemma region_events_length_le (region : string) (evs : list Event) :
  List.length (region_events region evs) <= List.length evs.
Proof.
  unfold region_events. destruct (mask_of region); simpl; [|lia].
  apply filter_length_le.
Qed.

Lemma selected_jets_above (rows : list Event) (jets : list (list Jet.t))
  (ev : Event) :
  In ev (selected_events rows jets) ->
  Forall (fun j => (30 < Jet.pt j)%Q) (Jet ev).
Proof.
  unfold selected_events. intro H.
  apply in_map_iff in H as ([r js] & <- & _). cbn [Jet fst snd].
  apply Forall_forall. intros j Hj. apply filter_In in Hj as [_ Hj].
  unfold jet_reqs in Hj. rewrite !andb_true_iff, Qgtb_true in Hj. tauto.
Qed.

Lemma ht_above (ev : Event) :
  4 <= List.length (Jet ev) ->
  Forall (fun j => (30 < Jet.pt j)%Q) (Jet ev) ->
  (120 < ht ev)%Q.
Proof.
  unfold ht. intros Hlen Hall.
  destruct (Jet ev) as [|a [|b [|c [|d rest]]]]; simpl in Hlen; try lia.
  inversion Hall as [|? ? Ha Hall1]; subst.
  inversion Hall1 as [|? ? Hb Hall2]; subst.
  inversion Hall2 as [|? ? Hc Hall3]; subst.
  inversion Hall3 as [|? ? Hd Hrest]; subst.
  cbn [map fold_left].
  assert (Hge : Forall (fun x => (0 <= x)%Q) (map Jet.pt rest)).
  { apply Forall_forall. intros x Hx.
    apply in_map_iff in Hx as (j & <- & Hj).
    pose proof (proj1 (Forall_forall _ _) Hrest j Hj) as H30.
    simpl in H30. lra. }
  pose proof (fold_left_Qplus_ge
                (0 + Jet.pt a + Jet.pt b + Jet.pt c + Jet.pt d)%Q Hge).
  lra.
Qed.

Section ChunkProperties.
Context {V : Vector4}.
Variable rand_gauss : list (list Q) -> list (list Q).
Variable evaluate : string -> string -> Q -> Q.

(** X7. The scale shift never loses a "4j2b" event: event by event the
    leptons selected in the pass of "pt_scale_up" are those of the nominal
    pass, no selected jet is lost, and an event in "4j2b" in the nominal pass
    is in "4j2b" in the pass of "pt_scale_up"; so in a nominal chunk the
    "pt_scale_up" fill of the "4j2b" histogram, the second one, has at least
    as many entries as the "nominal" fill, the first one. *)
Theorem pt_scale_up_keeps_4j2b_events (e : NanoEvents) (w : Q)
  (Hok : chunk_ok rand_gauss e w)
  (Hv : Metadata.variation (metadata e) = "nominal") :
  exists h1 f0 f1 rest s,
    run rand_gauss evaluate e
    = Some (Metadata.dataset (metadata e),
            [("4j1b", h1); ("4j2b", f0 :: f1 :: rest)], s) /\
    Fill.variation f0 = "nominal" /\ Fill.variation f1 = "pt_scale_up" /\
    List.length (Fill.observable f0) <= List.length (Fill.observable f1) /\
    Forall2 (fun n u =>
               Electron u = Electron n /\ Muon u = Muon n /\
               List.length (Jet n) <= List.length (Jet u) /\
               (in_4j2b n = true -> in_4j2b u = true))
      (pass_events (with_shifts rand_gauss e) "nominal")
      (pass_events (with_shifts rand_gauss e) "pt_scale_up").
Proof.
  rewrite (run_eq evaluate Hok).
  rewrite (chunk_fills_nominal rand_gauss evaluate e w "4j2b" Hv).
  do 5 eexists. split; [reflexivity|].
  split; [reflexivity|]. split; [reflexivity|].
  rewrite (@pass_events_nominal _ "nominal" eq_refl), pass_events_scale.
  split.
  - cbn [plain_fill Fill.observable].
    rewrite !region_observable_length. unfold region_events; cbn.
    rewrite !filter_of_map, !length_map.
    apply filter_length_mono. intro r. apply scale_up_event.
  - apply Forall2_maps. intros r _.
    destruct (scale_up_event r) as (H1 & H2 & H3 & _ & H5). auto.
Qed.

(** X8. In the result of a chunk every fill carries the process name of the
    chunk, has as many weights as observable entries, and at most as many as
    the batch has events; a batch without events is processed without error
    and gives fills with empty arrays. *)
Theorem chunk_fills_well_formed (e : NanoEvents) (w : Q)
  (Hok : chunk_ok rand_gauss e w) :
  exists h1 h2 s,
    run rand_gauss evaluate e
    = Some (Metadata.dataset (metadata e), [("4j1b", h1); ("4j2b", h2)], s) /\
    hist_dict s = [("4j1b", h1); ("4j2b", h2)] /\
    Forall (fun f =>
              Fill.process f = Metadata.process (metadata e) /\
              List.length (Fill.observable f) = List.length (Fill.weight f) /\
              List.length (Fill.observable f) <= List.length (rows e))
      (h1 ++ h2) /\
    (rows e = [] ->
     Forall (fun f => Fill.observable f = [] /\ Fill.weight f = [])
       (h1 ++ h2)).
Proof.
  rewrite (run_eq evaluate Hok). do 3 eexists.
  split; [reflexivity|]. split; [reflexivity|].
  assert (Hall : forall region,
             Forall (fun f =>
                       Fill.process f = Metadata.process (metadata e) /\
                       List.length (Fill.observable f)
                       = List.length (Fill.weight f) /\
                       List.length (Fill.observable f)
                       <= List.length (rows e))
               (chunk_fills rand_gauss evaluate e w region)).
  { intro region. apply chunk_fills_forall. intros sv f _ Hf.
    apply pass_fills_facts in Hf as (Ho & Hp & Hw).
    rewrite Ho, Hp, Hw, region_observable_length.
    repeat split; auto.
    eapply Nat.le_trans; [apply region_events_length_le|].
    apply (pass_events_length_le (with_shifts rand_gauss e)). }
  assert (Hboth : Forall _ (chunk_fills rand_gauss evaluate e w "4j1b"
                            ++ chunk_fills rand_gauss evaluate e w "4j2b"))
    by (apply Forall_app; split; apply Hall).
  split; [exact Hboth|].
  intro Hrows. eapply Forall_impl; [|exact Hboth].
  intros f (_ & Hlen & Hle). rewrite Hrows in Hle. simpl in Hle.
  destruct (Fill.observable f); [|simpl in Hle; lia].
  destruct (Fill.weight f); [auto|discriminate].
Qed.

(** X9. In the result of a chunk every entry of a "4j1b" fill is a number
    above 120, the scalar sum of at least four jet momenta above 30 each, and
    every entry of a "4j2b" fill is a number, never the missing value. *)
Theorem chunk_observables_in_range (e : NanoEvents) (w : Q)
  (Hok : chunk_ok rand_gauss e w) :
  exists h1 h2 s,
    run rand_gauss evaluate e
    = Some (Metadata.dataset (metadata e), [("4j1b", h1); ("4j2b", h2)], s) /\
    Forall (fun f =>
              Forall (fun o => exists x, o = Some x /\ (120 < x)%Q)
                (Fill.observable f)) h1 /\
    Forall (fun f =>
              Forall (fun o => exists x, o = Some x) (Fill.observable f)) h2.
Proof.
  rewrite (run_eq evaluate Hok). do 3 eexists.
  split; [reflexivity|]. split.
  - apply chunk_fills_forall. intros sv f _ Hf.
    apply pass_fills_facts in Hf as (Ho & _). rewrite Ho.
    unfold region_observable, region_events; cbn.
    apply Forall_forall. intros o Hin.
    apply in_map_iff in Hin as (ev & <- & Hev).
    apply filter_In in Hev as [Hev Hsel].
    exists (ht ev). split; [reflexivity|].
    apply ht_above.
    + unfold in_4j1b, atleast_4j in Hsel.
      rewrite !andb_true_iff, Nat.leb_le in Hsel. tauto.
    + eapply selected_jets_above. exact Hev.
  - apply chunk_fills_forall. intros sv f _ Hf.
    apply pass_fills_facts in Hf as (Ho & _). rewrite Ho.
    unfold region_observable, region_events; cbn.
    apply Forall_forall. intros o Hin.
    apply in_map_iff in Hin as (ev & <- & Hev).
    apply filter_In in Hev as [_ Hsel].
    apply in_4j2b_candidates in Hsel.
    destruct (pick_spec Hsel) as (k & c & Hp & _).
    exists (trijet_mass c). unfold m_reco_top. now rewrite Hp.
Qed.

(** X10. A chunk with the baseline "nominal" asks the correction set 16
    times, 20 times for the process "wjets": twice per weight-type variation
    and region; a chunk with another baseline never asks it.  Every call is
    for the family "btag_var", or "scale_var" for the process "wjets", in the
    direction "up" or "down", with at most one momentum per event of the
    batch. *)
Theorem chunk_correction_calls (e : NanoEvents) (w : Q)
  (Hok : chunk_ok rand_gauss e w) :
  exists hists s,
    run rand_gauss evaluate e
    = Some (Metadata.dataset (metadata e), hists, s) /\
    (Metadata.variation (metadata e) = "nominal" ->
     List.length (cset_calls s)
     = if String.eqb (Metadata.process (metadata e)) "wjets" then 20
       else 16) /\
    (Metadata.variation (metadata e) <> "nominal" -> cset_calls s = []) /\
    Forall (fun c =>
              (Query.family c = "btag_var" \/
               (Query.family c = "scale_var" /\
                Metadata.process (metadata e) = "wjets")) /\
              (Query.direction c = "up" \/ Query.direction c = "down") /\
              List.length (Query.input c) <= List.length (rows e))
      (cset_calls s).
Proof.
  rewrite (run_eq evaluate Hok). do 2 eexists.
  split; [reflexivity|]. cbn [chunk_state cset_calls].
  split; [|split].
  - intro Hv. unfold chunk_queries, chunk_variations.
    rewrite Hv, syst_variations_nominal. unfold pass_queries, event_systs.
    destruct (String.eqb (Metadata.process (metadata e)) "wjets");
      reflexivity.
  - intro Hv. unfold chunk_queries, chunk_variations.
    rewrite (syst_variations_other _ Hv). cbn [flat_map].
    unfold pass_queries. rewrite (@not_weight_type _ "nominal") by auto.
    reflexivity.
  - apply Forall_forall. intros c Hc. unfold chunk_queries in Hc.
    apply in_flat_map in Hc as (sv & _ & Hc).
    assert (Hcase : exists region,
               In c (pass_queries (Metadata.process (metadata e)) sv region
                       (pass_events (with_shifts rand_gauss e) sv)))
      by (apply in_app_or in Hc as [Hc|Hc]; eauto).
    clear Hc. destruct Hcase as (region & Hc). unfold pass_queries in Hc.
    destruct (str_in sv (event_systs (Metadata.process (metadata e))))
      eqn:Esv; [|destruct Hc].
    apply str_in_cases in Esv. unfold event_systs in Esv.
    assert (Hlen : forall i,
               List.length
                 (map (nth_jet_pt i)
                    (region_events region
                       (pass_events (with_shifts rand_gauss e) sv)))
               <= List.length (rows e)).
    { intro i. rewrite length_map.
      eapply Nat.le_trans; [apply region_events_length_le|].
      apply (pass_events_length_le (with_shifts rand_gauss e)). }
    destruct (String.eqb_spec (Metadata.process (metadata e)) "wjets")
      as [Ew|Ew]; simpl in Esv.
    all: repeat match goal with
         | H : _ \/ _ |- _ => destruct H as [<-|H]
         | H : False |- _ => destruct H
         end.
    all: cbn in Hc; destruct Hc as [<-|[<-|[]]];
      cbn [weight_query Query.family Query.direction Query.input];
      repeat split; auto; apply Hlen.
Qed.

(** X11. A chunk with the baseline "nominal" fills each region under the
    same names whatever its process, data included: "nominal", the two
    kinematic shifts and "up" and "down" of the four b-tag variations, eleven
    fills, followed for the process "wjets" alone by "scale_var_up" and
    "scale_var_down". *)
Theorem nominal_chunk_fill_names (e : NanoEvents) (w : Q)
  (Hok : chunk_ok rand_gauss e w)
  (Hv : Metadata.variation (metadata e) = "nominal") :
  exists h1 h2 s,
    run rand_gauss evaluate e
    = Some (Metadata.dataset (metadata e), [("4j1b", h1); ("4j2b", h2)], s) /\
    map Fill.variation h1
    = ["nominal"; "pt_scale_up"; "pt_res_up";
       "btag_var_0_up"; "btag_var_0_down"; "btag_var_1_up";
       "btag_var_1_down"; "btag_var_2_up"; "btag_var_2_down";
       "btag_var_3_up"; "btag_var_3_down"]
      ++ (if String.eqb (Metadata.process (metadata e)) "wjets"
          then ["scale_var_up"; "scale_var_down"] else []) /\
    map Fill.variation h2 = map Fill.variation h1.
Proof.
  rewrite (run_eq evaluate Hok). do 3 eexists.
  split; [reflexivity|].
  rewrite !(chunk_fills_nominal rand_gauss evaluate e w _ Hv).
  unfold pass_fills, event_systs.
  destruct (String.eqb (Metadata.process (metadata e)) "wjets");
    split; reflexivity.
Qed.

(** X12. In a chunk with the baseline "nominal" every fill other than those
    of the two kinematic shifts has the observable of the "nominal" fill of
    its region: the observable of the region on the objects that pass the
    cuts of [object_selection] on the unshifted batch.  The weight-type
    variations change weights, never observables. *)
Theorem weight_fills_share_nominal_observable (e : NanoEvents) (w : Q)
  (Hok : chunk_ok rand_gauss e w)
  (Hv : Metadata.variation (metadata e) = "nominal") :
  exists f1 rest1 f2 rest2 s,
    run rand_gauss evaluate e
    = Some (Metadata.dataset (metadata e),
            [("4j1b", f1 :: rest1); ("4j2b", f2 :: rest2)], s) /\
    Fill.variation f1 = "nominal" /\ Fill.variation f2 = "nominal" /\
    Fill.observable f1
    = map (fun ev => Some (ht ev))
        (filter in_4j1b (map tight_event (rows e))) /\
    Fill.observable f2
    = map m_reco_top (filter in_4j2b (map tight_event (rows e))) /\
    Forall (fun f => In (Fill.variation f) ["pt_scale_up"; "pt_res_up"] \/
                     Fill.observable f = Fill.observable f1) (f1 :: rest1) /\
    Forall (fun f => In (Fill.variation f) ["pt_scale_up"; "pt_res_up"] \/
                     Fill.observable f = Fill.observable f2) (f2 :: rest2).
Proof.
  rewrite (run_eq evaluate Hok).
  assert (Hall : forall region,
             Forall (fun f =>
                       In (Fill.variation f) ["pt_scale_up"; "pt_res_up"] \/
                       Fill.observable f
                       = region_observable region (map tight_event (rows e)))
               (chunk_fills rand_gauss evaluate e w region)).
  { intro region. apply chunk_fills_forall. intros sv f _ Hf.
    destruct (str_in sv jet_kinematic_systs) eqn:Ek.
    - left. apply str_in_cases in Ek.
      rewrite pass_fills_plain in Hf by auto.
      destruct Hf as [<-|[]]. cbn [plain_fill Fill.variation].
      rewrite Hv. exact Ek.
    - right. apply pass_fills_facts in Hf as (Ho & _). rewrite Ho.
      now rewrite (@pass_events_nominal (with_shifts rand_gauss e) sv Ek). }
  pose proof (Hall "4j1b") as H1. pose proof (Hall "4j2b") as H2.
  rewrite !(chunk_fills_nominal rand_gauss evaluate e w _ Hv) in *.
  assert (Hobs : forall region,
             Fill.observable
               (plain_fill (Metadata.process (metadata e)) "nominal" w
                  "nominal" region
                  (pass_events (with_shifts rand_gauss e) "nominal"))
             = region_observable region (map tight_event (rows e))).
  { intro region. cbn [plain_fill Fill.observable].
    now rewrite (@pass_events_nominal (with_shifts rand_gauss e) "nominal"
                   eq_refl). }
  do 5 eexists. split; [reflexivity|].
  split; [reflexivity|]. split; [reflexivity|].
  rewrite !Hobs.
  split; [reflexivity|]. split; [reflexivity|].
  split; [exact H1|exact H2].
Qed.

(** X13. A simulated sample without generated events makes the processor
    raise before any fill: the normalisation divides by their number.  For
    the process "data" that number is not used: the chunk is processed
    whatever it is, and its first fills of each region, the one under the name
    of the baseline and, when the baseline is "nominal", those of the two
    kinematic shifts, weigh every event 1. *)
Theorem normalisation_edge_cases (e : NanoEvents)
  (Hshape : shape (rand_gauss (jets_pt (map Jet (rows e))))
            = shape (map Jet (rows e))) :
  (Metadata.process (metadata e) <> "data" ->
   Metadata.nevts (metadata e) = 0%Z ->
   run rand_gauss evaluate e = None) /\
  (Metadata.process (metadata e) = "data" ->
   exists h1 h2 s,
     run rand_gauss evaluate e
     = Some (Metadata.dataset (metadata e), [("4j1b", h1); ("4j2b", h2)], s)
     /\
     firstn 3 h1 <> [] /\ firstn 3 h2 <> [] /\
     Forall (fun f =>
               In (Fill.variation f)
                 [Metadata.variation (metadata e); "pt_scale_up"; "pt_res_up"]
               /\ Forall (fun x => (x == 1)%Q) (Fill.weight f))
       (firstn 3 h1 ++ firstn 3 h2)).
Proof.
  split.
  - intros Hp Hn. unfold run, process.
    rewrite (@bind_eq _ _ new_hist_dict _ _ _ tt eq_refl). simpl hist_dict.
    rewrite (bind_eq _ (@load_events_eq [ObjEvents e] _ [] 0 e eq_refl)).
    unfold bind at 1, lift, xsec_weight.
    apply String.eqb_neq in Hp. rewrite Hp, Hn. reflexivity.
  - intro Hp.
    assert (Hok : chunk_ok rand_gauss e 1%Q).
    { split; [|exact Hshape]. unfold xsec_weight. now rewrite Hp. }
    rewrite (run_eq evaluate Hok). do 3 eexists.
    split; [reflexivity|].
    assert (Hone : forall (l : list Event),
               Forall (fun x => (x == 1)%Q) (map (fun _ => (1 * 1)%Q) l)).
    { intro l. apply Forall_forall. intros x Hx.
      apply in_map_iff in Hx as (_ & <- & _). reflexivity. }
    destruct (String.eqb_spec (Metadata.variation (metadata e)) "nominal")
      as [Hv|Hv].
    + rewrite !(chunk_fills_nominal rand_gauss evaluate e 1%Q _ Hv).
      cbn [firstn app]. split; [discriminate|]. split; [discriminate|].
      rewrite Hv.
      repeat (constructor; [split; [simpl; auto|apply Hone]|]).
      constructor.
    + rewrite !(chunk_fills_other rand_gauss evaluate e 1%Q _ Hv).
      cbn [firstn app]. split; [discriminate|]. split; [discriminate|].
      apply String.eqb_neq in Hv.
      repeat (constructor;
              [split; [cbn [plain_fill Fill.variation]; rewrite Hv; now left
                      |apply Hone]|]).
      constructor.
Qed.

End ChunkProperties.

(** ** Closed instances of the further properties *)

Lemma pt_scale_up_keeps_4j2b_events_witness :
  exists h1 f0 f1 rest s,
    run (V := additive_vectors) a_smearing a_correction
      (a_chunk "ttbar" "nominal")
    = Some ("sample", [("4j1b", h1); ("4j2b", f0 :: f1 :: rest)], s) /\
    List.length (Fill.observable f0) <= List.length (Fill.observable f1).
Proof.
  destruct (@pt_scale_up_keeps_4j2b_events additive_vectors a_smearing
              a_correction (a_chunk "ttbar" "nominal") a_weight)
    as (h1 & f0 & f1 & rest & s & Hrun & _ & _ & Hle & _).
  - split; reflexivity.
  - reflexivity.
  - exists h1, f0, f1, rest, s. split; [exact Hrun|exact Hle].
Defined.

Lemma chunk_fills_well_formed_witness :
  exists h1 h2 s,
    run (V := additive_vectors) a_smearing a_correction
      (a_chunk "wjets" "nominal")
    = Some ("sample", [("4j1b", h1); ("4j2b", h2)], s) /\
    Forall (fun f => Fill.process f = "wjets" /\
                     List.length (Fill.observable f)
                     = List.length (Fill.weight f)) (h1 ++ h2).
Proof.
  destruct (@chunk_fills_well_formed additive_vectors a_smearing
              a_correction (a_chunk "wjets" "nominal") a_weight)
    as (h1 & h2 & s & Hrun & _ & Hall & _).
  - split; reflexivity.
  - exists h1, h2, s. split; [exact Hrun|].
    eapply Forall_impl; [|exact Hall]. intros f (Hp & Hl & _). auto.
Defined.

Lemma chunk_observables_in_range_witness :
  exists h1 h2 s,
    run (V := additive_vectors) a_smearing a_correction
      (a_chunk "ttbar" "nominal")
    = Some ("sample", [("4j1b", h1); ("4j2b", h2)], s) /\
    Forall (fun f =>
              Forall (fun o => exists x, o = Some x /\ (120 < x)%Q)
                (Fill.observable f)) h1.
Proof.
  destruct (@chunk_observables_in_range additive_vectors a_smearing
              a_correction (a_chunk "ttbar" "nominal") a_weight)
    as (h1 & h2 & s & Hrun & H1 & _).
  - split; reflexivity.
  - exists h1, h2, s. split; [exact Hrun|exact H1].
Defined.

Lemma chunk_correction_calls_witness :
  exists hists s,
    run (V := additive_vectors) a_smearing a_correction
      (a_chunk "wjets" "nominal") = Some ("sample", hists, s) /\
    List.length (cset_calls s) = 20.
Proof.
  destruct (@chunk_correction_calls additive_vectors a_smearing
              a_correction (a_chunk "wjets" "nominal") a_weight)
    as (hists & s & Hrun & Hn & _).
  - split; reflexivity.
  - exists hists, s. split; [exact Hrun|]. exact (Hn eq_refl).
Defined.

Lemma nominal_chunk_fill_names_witness :
  exists h1 h2 s,
    run (V := additive_vectors) a_smearing a_correction a_data_chunk
    = Some ("collisions", [("4j1b", h1); ("4j2b", h2)], s) /\
    List.length (map Fill.variation h1) = 11.
Proof.
  destruct (@nominal_chunk_fill_names additive_vectors a_smearing
              a_correction a_data_chunk 1%Q)
    as (h1 & h2 & s & Hrun & Hnames & _).
  - split; reflexivity.
  - reflexivity.
  - exists h1, h2, s. split; [exact Hrun|]. rewrite Hnames. reflexivity.
Defined.

Lemma weight_fills_share_nominal_observable_witness :
  exists f1 rest1 f2 rest2 s,
    run (V := additive_vectors) a_smearing a_correction
      (a_chunk "ttbar" "nominal")
    = Some ("sample", [("4j1b", f1 :: rest1); ("4j2b", f2 :: rest2)], s) /\
    Fill.variation f1 = "nominal" /\
    Forall (fun f => In (Fill.variation f) ["pt_scale_up"; "pt_res_up"] \/
                     Fill.observable f = Fill.observable f1) (f1 :: rest1).
Proof.
  destruct (@weight_fills_share_nominal_observable additive_vectors
              a_smearing a_correction (a_chunk "ttbar" "nominal") a_weight)
    as (f1 & rest1 & f2 & rest2 & s & Hrun & Hn & _ & _ & _ & H1 & _).
  - split; reflexivity.
  - reflexivity.
  - exists f1, rest1, f2, rest2, s. auto.
Defined.

Lemma normalisation_edge_cases_witness :
  exists h1 h2 s,
    run (V := additive_vectors) a_smearing a_correction a_data_chunk
    = Some ("collisions", [("4j1b", h1); ("4j2b", h2)], s) /\
    firstn 3 h1 <> [].
Proof.
  destruct (@normalisation_edge_cases additive_vectors a_smearing
              a_correction a_data_chunk) as [_ Hdata].
  - reflexivity.
  - destruct (Hdata eq_refl) as (h1 & h2 & s & Hrun & Hne & _).
    exists h1, h2, s. split; [exact Hrun|exact Hne].
Defined.

(** A simulated sample without generated events: the processor raises. *)
Example no_generated_events_raises :
  run (V := additive_vectors) a_smearing a_correction
    {| rows := [event_2b]; attached := [];
       metadata := {| Metadata.process := "ttbar";
                      Metadata.variation := "nominal";
                      Metadata.xsec := 800%Q; Metadata.nevts := 0%Z;
                      Metadata.dataset := "sample" |} |} = None.
Proof. reflexivity. Qed.

(** ** The two sets of object cuts *)

Lemma filter_subcut {A} (P Q : A -> bool) (l : list A) :
  (forall x, Q x = true -> P x = true) ->
  filter Q (filter P l) = filter Q l.
Proof.
  intro H. rewrite filter_filter. apply filter_ext. intro x.
  destruct (Q x) eqn:E; [now rewrite (H x E)|apply andb_false_r].
Qed.

Lemma tight_cuts_imply_loose :
  (forall x, electron_reqs x = true -> loose_electron_reqs x = true) /\
  (forall x, muon_reqs x = true -> loose_muon_reqs x = true) /\
  (forall x, jet_reqs x = true -> loose_jet_reqs x = true).
Proof.
  unfold electron_reqs, loose_electron_reqs, muon_reqs, loose_muon_reqs,
    jet_reqs, loose_jet_reqs.
  repeat split; intro x; rewrite !andb_true_iff, ?Qgtb_true; try tauto.
  intros [[H1 H2] H3]. split; [lra|exact H2].
Qed.

(** X14. The cuts of [object_selection] are tighter than those of
    [calculate_trijet_mass]: on every batch [object_selection] keeps, event
    by event, what its cuts keep among the objects the plain cuts keep, so
    no more leptons, jets or b-tagged jets; and an event of the processor's
    "4j2b" region passes the event filter of [calculate_trijet_mass] as soon
    as the plain cuts leave it exactly one lepton. *)
Theorem object_selection_tighter_than_plain_cuts (rows : list Event) :
  object_selection (map Electron rows) (map Muon rows) (map Jet rows)
  = (map Electron (map tight_event rows), map Muon (map tight_event rows),
     map Jet (map tight_event rows)) /\
  Forall (fun ev =>
            tight_event (loose_event ev) = tight_event ev /\
            List.length (Electron (tight_event ev))
            <= List.length (Electron (loose_event ev)) /\
            List.length (Muon (tight_event ev))
            <= List.length (Muon (loose_event ev)) /\
            List.length (Jet (tight_event ev))
            <= List.length (Jet (loose_event ev)) /\
            n_btagged (tight_event ev) <= n_btagged (loose_event ev) /\
            (in_4j2b (tight_event ev) = true ->
             exactly_1l (loose_event ev) = true ->
             in_4j2b (loose_event ev) = true)) rows.
Proof.
  destruct tight_cuts_imply_loose as (He & Hm & Hj).
  split.
  - rewrite (@object_selection_events rows (map Jet rows))
      by apply length_map.
    now rewrite (selected_events_map Jet).
  - apply Forall_forall. intros ev _.
    assert (Ht : tight_event (loose_event ev) = tight_event ev).
    { unfold tight_event, loose_event; cbn [Electron Muon Jet].
      now rewrite !filter_subcut by assumption. }
    assert (Hjl : List.length (Jet (tight_event ev))
                  <= List.length (Jet (loose_event ev))).
    { rewrite <- Ht. cbn [tight_event Jet]. apply filter_length_le. }
    assert (Hbl : n_btagged (tight_event ev) <= n_btagged (loose_event ev)).
    { rewrite <- Ht. unfold n_btagged. cbn [tight_event Jet].
      rewrite filter_filter. apply filter_length_mono.
      intros x Hx. apply andb_true_iff in Hx. tauto. }
    split; [exact Ht|].
    split; [rewrite <- Ht; cbn [tight_event Electron];
            apply filter_length_le|].
    split; [rewrite <- Ht; cbn [tight_event Muon]; apply filter_length_le|].
    split; [exact Hjl|]. split; [exact Hbl|].
    unfold in_4j2b, atleast_4j, atleast_2b.
    rewrite !andb_true_iff, !Nat.leb_le.
    intros [[_ H4] H2] H1. repeat split; auto; lia.
Qed.

(** ** Counting the trijet candidates *)

Lemma pairs_count {A} (l : list A) :
  2 * List.length (ak.pairs l) = List.length l * (List.length l - 1).
Proof.
  induction l as [|x l IH]; simpl; [reflexivity|].
  rewrite length_app, length_map.
  destruct l as [|y l]; simpl in *; nia.
Qed.

Lemma combinations3_count {A} (l : list A) :
  6 * List.length (ak.combinations3 l)
  = List.length l * (List.length l - 1) * (List.length l - 2).
Proof.
  induction l as [|x l IH]; simpl; [reflexivity|].
  rewrite length_app, length_map.
  pose proof (pairs_count l) as Hp.
  destruct l as [|y [|z l]]; simpl in *; nia.
Qed.

Lemma pairs_filter {A} (P : A -> bool) (l : list A) :
  filter (fun p => P (fst p) && P (snd p)) (ak.pairs l)
  = ak.pairs (filter P l).
Proof.
  induction l as [|x l IH]; simpl; [reflexivity|].
  rewrite filter_app, IH, filter_of_map; cbn [fst snd].
  destruct (P x); simpl.
  - reflexivity.
  - assert (Hnone : filter (fun _ : A => false) l = [])
      by (clear; induction l; simpl; auto).
    now rewrite Hnone.
Qed.

Lemma combinations3_filter {A} (P : A -> bool) (l : list A) :
  filter (fun t => P (fst (fst t)) && P (snd (fst t)) && P (snd t))
    (ak.combinations3 l)
  = ak.combinations3 (filter P l).
Proof.
  induction l as [|x l IH]; simpl; [reflexivity|].
  rewrite filter_app, IH, filter_of_map; cbn [fst snd].
  destruct (P x); simpl.
  - now rewrite <- pairs_filter.
  - assert (Hnone : forall (m : list (A * A)),
               filter (fun _ : A * A => false) m = [])
      by (induction m; simpl; auto).
    now rewrite Hnone.
Qed.

Section CandidateCount.
Context {V : Vector4}.

Lemma no_btag_make (t : Jet.t * Jet.t * Jet.t) :
  negb (has_btag (Trijet.make t))
  = untagged (fst (fst t)) && untagged (snd (fst t)) && untagged (snd t).
Proof.
  destruct t as [[a b] c]; cbn [fst snd]. unfold untagged.
  apply eq_true_iff_eq.
  rewrite !andb_true_iff, !negb_true_iff, <- !not_true_iff_false.
  rewrite has_btag_make, !Qgtb_true. tauto.
Qed.

(** X15. Of the n(n-1)(n-2)/6 triples of the n jets of an event, the b-tag
    requirement of [calculate_m_reco_top] removes exactly the triples made
    of jets that are not b-tagged: with k such jets, n(n-1)(n-2)/6 -
    k(k-1)(k-2)/6 candidates survive.  All of them survive when at most two
    jets are not b-tagged, and none when no jet is b-tagged. *)
Theorem surviving_candidates_count (ev : list Jet.t) :
  let n := List.length ev in
  let k := List.length (filter untagged ev) in
  6 * List.length (ak.combinations3 ev) = n * (n - 1) * (n - 2) /\
  6 * List.length (candidates ev) + k * (k - 1) * (k - 2)
  = n * (n - 1) * (n - 2) /\
  (k <= 2 ->
   List.length (candidates ev) = List.length (ak.combinations3 ev)) /\
  (k = n -> candidates ev = []).
Proof.
  intros n k.
  pose proof (combinations3_count ev) as Hn.
  pose proof (combinations3_count (filter untagged ev)) as Hk.
  assert (Hsplit : List.length (candidates ev)
                   + List.length (ak.combinations3 (filter untagged ev))
                   = List.length (ak.combinations3 ev)).
  { unfold candidates.
    pose proof (filter_length has_btag
                  (map Trijet.make (ak.combinations3 ev))) as Hf.
    rewrite length_map in Hf. rewrite <- Hf. f_equal.
    rewrite filter_of_map, length_map.
    rewrite <- combinations3_filter. f_equal.
    apply filter_ext. intro t. symmetry. apply no_btag_make. }
  fold n in Hn. fold k in Hk.
  split; [exact Hn|]. split; [lia|]. split.
  - intro Hle.
    assert (List.length (ak.combinations3 (filter untagged ev)) = 0).
    { destruct k as [|[|[|]]]; simpl in Hk; lia. }
    lia.
  - intro Hkn. rewrite Hkn in Hk.
    assert (List.length (candidates ev) = 0) by lia.
    now destruct (candidates ev).
Qed.

End CandidateCount.
